(** * The project analyzer of the offline code assistant

    A shallow embedding of [src/project_analyzer.py] (class
    [ProjectAnalyzer]): the directory walker [analyze_project], the cached
    reader [read_file], the dispatcher [analyze_file] and the three
    regex-based extractors [_analyze_python], [_analyze_c_cpp] and
    [_analyze_javascript].

    Python text is modelled by [string]; a character is a code point below
    256, which covers ASCII and Latin-1.  Python's [int] is [Z], a [dict]
    with string keys is a [gmap string _], a [list] is a [list].  The
    library functions the analyzer calls ([str] methods, [os.path],
    [os.walk], [re]) are modelled in the modules [Text], [PosixPath] and
    [Re] below; the analyzer itself follows the source line by line.
    [fnmatch.fnmatch] is a parameter of the walker; [Sample.fnmatch_glob]
    is its restriction to patterns without bracket expressions. *)

From Stdlib Require Import ZArith Ascii String List Lia Bool.
From stdpp Require Import gmap strings list fin_maps.

Local Open Scope string_scope.
Local Open Scope list_scope.

(* ===================================================================== *)
(** ** Python [str] methods *)
(* ===================================================================== *)

Module Text.

Definition code (c : ascii) : N := N_of_ascii c.

Definition between (lo hi : N) (c : ascii) : bool :=
  ((lo <=? code c) && (code c <=? hi))%N.

(** [str.isspace] on one character, which is also the class [\s] of
    [re] on text: TAB..CR, FS..US, space, NEL and NBSP. *)
Definition is_space (c : ascii) : bool :=
  between 9 13 c || between 28 32 c
  || (code c =? 133)%N || (code c =? 160)%N.

(** The class [\w] of [re] on text: alphanumeric characters and the
    underscore. *)
Definition is_word (c : ascii) : bool :=
  between 48 57 c || between 65 90 c || (code c =? 95)%N
  || between 97 122 c
  || (code c =? 170)%N || between 178 179 c || (code c =? 181)%N
  || between 185 186 c || between 188 190 c
  || between 192 214 c || between 216 246 c || between 248 255 c.

Definition newline : ascii := "010"%char.

(** The one-character text [\n]. *)
Definition nl : string := String newline EmptyString.

(** [str.lower] on one character. *)
Definition lower_char (c : ascii) : ascii :=
  if between 65 90 c
     || (between 192 222 c && negb (code c =? 215)%N)
  then ascii_of_N (code c + 32)
  else c.

(** [s.lower()] *)
Fixpoint lower (s : string) : string :=
  match s with
  | EmptyString => EmptyString
  | String c s' => String (lower_char c) (lower s')
  end.

(** [s.lstrip(chars)] with a one-character [chars] *)
Fixpoint lstrip_char (x : ascii) (s : string) : string :=
  match s with
  | String c s' => if Ascii.eqb c x then lstrip_char x s' else s
  | EmptyString => EmptyString
  end.

(** [s.lstrip()] *)
Fixpoint lstrip (s : string) : string :=
  match s with
  | String c s' => if is_space c then lstrip s' else s
  | EmptyString => EmptyString
  end.

(** [s.rstrip()] *)
Fixpoint rstrip (s : string) : string :=
  match s with
  | EmptyString => EmptyString
  | String c s' =>
      match rstrip s' with
      | EmptyString => if is_space c then EmptyString else String c EmptyString
      | r => String c r
      end
  end.

(** [s.strip()] *)
Definition strip (s : string) : string := rstrip (lstrip s).

(** [s.split(sep)] with a one-character separator: never the empty
    list, [''.split(',') == ['']]. *)
Fixpoint split (sep : ascii) (s : string) : list string :=
  match s with
  | EmptyString => [EmptyString]
  | String c s' =>
      if Ascii.eqb c sep then EmptyString :: split sep s'
      else match split sep s' with
           | h :: t => String c h :: t
           | [] => [String c EmptyString]
           end
  end.

(** [s.count(c)] with a one-character argument *)
Fixpoint count (x : ascii) (s : string) : Z :=
  match s with
  | EmptyString => 0%Z
  | String c s' => ((if Ascii.eqb c x then 1 else 0) + count x s')%Z
  end.

(** [len(s)] *)
Definition len (s : string) : Z := Z.of_nat (String.length s).

(** [s.rfind(c)]: the index of the last occurrence, or -1. *)
Fixpoint rfind (x : ascii) (s : string) : Z :=
  match s with
  | EmptyString => (-1)%Z
  | String c s' =>
      let r := rfind x s' in
      if (0 <=? r)%Z then (r + 1)%Z
      else if Ascii.eqb c x then 0%Z else (-1)%Z
  end.

(** [s[:n]] and [s[n:]] for [0 <= n] *)
Fixpoint take (n : nat) (s : string) : string :=
  match n, s with
  | S n', String c s' => String c (take n' s')
  | _, _ => EmptyString
  end.

Fixpoint drop (n : nat) (s : string) : string :=
  match n, s with
  | S n', String _ s' => drop n' s'
  | _, _ => s
  end.

(** [s[i]] as an option *)
Definition char_at (s : string) (i : nat) : option ascii := String.get i s.

(** [sep.join(l)] *)
Fixpoint join (sep : string) (l : list string) : string :=
  match l with
  | [] => EmptyString
  | [x] => x
  | x :: l' => x +:+ sep +:+ join sep l'
  end.

(** [x in s] for a one-character [x] *)
Fixpoint contains (x : ascii) (s : string) : bool :=
  match s with
  | EmptyString => false
  | String c s' => Ascii.eqb c x || contains x s'
  end.

(** Truthiness of a string: [if s:] *)
Definition nonempty (s : string) : bool :=
  match s with EmptyString => false | _ => true end.

(** [pat in s] on texts: [pat] occurs somewhere in [s]. *)
Fixpoint starts_with (pat s : string) : bool :=
  match pat with
  | EmptyString => true
  | String a pat' =>
      match s with
      | String b s' => Ascii.eqb a b && starts_with pat' s'
      | EmptyString => false
      end
  end.

Fixpoint has_substring (pat s : string) : bool :=
  starts_with pat s
  || match s with
     | EmptyString => false
     | String _ s' => has_substring pat s'
     end.

(** The characters at which [str.splitlines] breaks a line: LF, VT, FF,
    CR, FS, GS, RS and NEL; CR LF is one break. *)
Definition is_linebreak (c : ascii) : bool :=
  between 10 13 c || between 28 30 c || (code c =? 133)%N.

Definition carriage_return : ascii := "013"%char.

(** [s.splitlines()]; [after_cr] says that the character before [s] was
    a CR, whose LF is then part of the same break. *)
Fixpoint lines_from (after_cr : bool) (s : string) : list string :=
  match s with
  | EmptyString => []
  | String c s' =>
      if after_cr && Ascii.eqb c newline then lines_from false s'
      else if is_linebreak c
      then EmptyString :: lines_from (Ascii.eqb c carriage_return) s'
      else match lines_from false s' with
           | l :: ls => String c l :: ls
           | [] => [String c EmptyString]
           end
  end.

Definition splitlines (s : string) : list string := lines_from false s.

(** An index of a slice as Python reads it: a negative index counts
    from the end, and every index is clipped to the list. *)
Definition slice_index (n i : Z) : Z :=
  if (i <? 0)%Z then Z.max 0 (n + i) else Z.min i n.

(** [l[start:stop]] *)
Definition slice {A} (l : list A) (start stop : Z) : list A :=
  let n := Z.of_nat (length l) in
  let a := slice_index n start in
  let b := slice_index n stop in
  firstn (Z.to_nat (b - a)) (skipn (Z.to_nat a) l).

End Text.

(* ===================================================================== *)
(** ** [os.path] on a POSIX system *)
(* ===================================================================== *)

Module PosixPath.

(** [os.path.splitext(p)]: the extension starts at the last dot of the
    last path component, unless that component has only dots before
    it. *)
Definition splitext (p : string) : string * string :=
  let sepIndex := Text.rfind "/" p in
  let dotIndex := Text.rfind "." p in
  if (sepIndex <? dotIndex)%Z
     && existsb (fun i => match Text.char_at p i with
                          | Some c => negb (Ascii.eqb c ".")
                          | None => true
                          end)
                (seq (Z.to_nat (sepIndex + 1))
                     (Z.to_nat (dotIndex - (sepIndex + 1))))
  then (Text.take (Z.to_nat dotIndex) p, Text.drop (Z.to_nat dotIndex) p)
  else (p, EmptyString).

Definition starts_with_slash (s : string) : bool :=
  match s with String "/" _ => true | _ => false end.

Fixpoint ends_with_slash (s : string) : bool :=
  match s with
  | EmptyString => false
  | String c EmptyString => Ascii.eqb c "/"
  | String _ s' => ends_with_slash s'
  end.

(** [os.path.join(a, b)] *)
Definition join (a b : string) : string :=
  if starts_with_slash b then b
  else if negb (Text.nonempty a) || ends_with_slash a then a +:+ b
  else a +:+ "/" +:+ b.

(** [os.path.relpath(root, start)] where [root] is [start] followed by
    the directory names [comps], as [os.walk(start)] builds it. *)
Definition relpath (comps : list string) : string :=
  match comps with
  | [] => "."
  | _ => Text.join "/" comps
  end.

End PosixPath.

(* ===================================================================== *)
(** ** Python [re]: a backtracking matcher *)
(* ===================================================================== *)

Module Re.

(** Members of a bracket expression. *)
Inductive atom :=
| ALit (c : ascii)
| ASpace
| AWord.

(** One-character patterns. *)
Inductive cls :=
| Dot                       (* [.]: anything but a newline *)
| Lit (c : ascii)
| Space                     (* [\s] *)
| NotSpace                  (* [\S] *)
| Word                      (* [\w] *)
| OneOf (l : list atom)     (* [[...]] *)
| NoneOf (l : list atom).   (* [[^...]] *)

Inductive regex :=
| Eps
| Chr (c : cls)
| Str (s : string)                    (* a literal word *)
| Seq (r1 r2 : regex)
| Alt (r1 r2 : regex)                 (* [r1|r2], leftmost first *)
| Star (greedy : bool) (r : regex)    (* [r*] and [r*?] *)
| Group (n : nat) (r : regex)         (* the n-th capturing group *)
| Bol                                 (* [^] under MULTILINE *)
| Eol.                                (* [$] under MULTILINE *)

Definition Plus (greedy : bool) (r : regex) : regex := Seq r (Star greedy r).
Definition Opt (r : regex) : regex := Alt r Eps.

Declare Scope re_scope.
Delimit Scope re_scope with re.
Bind Scope re_scope with regex.
Notation "r1 ⋅ r2" := (Seq r1 r2)
  (at level 40, left associativity) : re_scope.

Definition atom_match (a : atom) (c : ascii) : bool :=
  match a with
  | ALit x => Ascii.eqb c x
  | ASpace => Text.is_space c
  | AWord => Text.is_word c
  end.

Definition cls_match (k : cls) (c : ascii) : bool :=
  match k with
  | Dot => negb (Ascii.eqb c Text.newline)
  | Lit x => Ascii.eqb c x
  | Space => Text.is_space c
  | NotSpace => negb (Text.is_space c)
  | Word => Text.is_word c
  | OneOf l => existsb (fun a => atom_match a c) l
  | NoneOf l => negb (existsb (fun a => atom_match a c) l)
  end.

(** A position in the scanned text: the character before it, the text
    after it and its index. *)
Record cursor := Cursor {
  cur_prev : option ascii;
  cur_rest : string;
  cur_pos : nat
}.

Definition start (s : string) : cursor := Cursor None s 0.

Definition advance (c : cursor) : cursor :=
  match cur_rest c with
  | String a s => Cursor (Some a) s (S (cur_pos c))
  | EmptyString => c
  end.

Definition at_bol (c : cursor) : bool :=
  match cur_prev c with
  | None => true
  | Some a => Ascii.eqb a Text.newline
  end.

Definition at_eol (c : cursor) : bool :=
  match cur_rest c with
  | EmptyString => true
  | String a _ => Ascii.eqb a Text.newline
  end.

(** Consume the literal [s]. *)
Fixpoint eat (s : string) (c : cursor) : option cursor :=
  match s with
  | EmptyString => Some c
  | String x s' =>
      match cur_rest c with
      | String a _ => if Ascii.eqb a x then eat s' (advance c) else None
      | EmptyString => None
      end
  end.

Abbreviation groups := (gmap nat string).

Definition orelse {R} (x : option R) (y : unit -> option R) : option R :=
  match x with
  | Some r => Some r
  | None => y tt
  end.

(** The loop of a repetition: [body] matches one iteration and [k] what
    follows.  A greedy loop tries one more iteration before it tries
    [k], a lazy loop tries [k] first; an iteration that consumed nothing
    is given up.  The fuel bounds the number of iterations by the length
    of the text left. *)
Fixpoint star_loop {R}
    (body : cursor -> groups -> (cursor -> groups -> option R) -> option R)
    (greedy : bool) (k : cursor -> groups -> option R)
    (fuel : nat) (c : cursor) (g : groups) : option R :=
  let again (_ : unit) :=
    match fuel with
    | O => None
    | S fuel' =>
        body c g (fun c' g' =>
          if Nat.ltb (cur_pos c) (cur_pos c')
          then star_loop body greedy k fuel' c' g'
          else None)
    end in
  if greedy then orelse (again tt) (fun _ => k c g)
  else orelse (k c g) again.

(** [run r c g k]: match [r] at [c] with the groups [g] seen so far and
    hand every way of matching it, in the order of Python's backtracking
    search, to the continuation [k] until [k] accepts one. *)
Fixpoint run {R} (r : regex) (c : cursor) (g : groups)
    (k : cursor -> groups -> option R) : option R :=
  match r with
  | Eps => k c g
  | Chr cl =>
      match cur_rest c with
      | String a _ => if cls_match cl a then k (advance c) g else None
      | EmptyString => None
      end
  | Str s =>
      match eat s c with
      | Some c' => k c' g
      | None => None
      end
  | Seq r1 r2 => run r1 c g (fun c' g' => run r2 c' g' k)
  | Alt r1 r2 => orelse (run r1 c g k) (fun _ => run r2 c g k)
  | Star greedy r1 =>
      star_loop (run r1) greedy k (String.length (cur_rest c)) c g
  | Group n r1 =>
      run r1 c g (fun c' g' =>
        k c' (<[n := Text.take (cur_pos c' - cur_pos c) (cur_rest c)]> g'))
  | Bol => if at_bol c then k c g else None
  | Eol => if at_eol c then k c g else None
  end.

(** A match object: where the match ends and what its groups hold. *)
Record rmatch := Match {
  m_end : cursor;
  m_groups : groups
}.

(** [match.group(n)] for a group number [n]: [None] when the group took
    no part in the match. *)
Definition group (m : rmatch) (n : nat) : option string := m_groups m !! n.

(** [pattern.match] at a cursor. *)
Definition match_at (r : regex) (c : cursor) : option rmatch :=
  run r c ∅ (fun c' g' => Some (Match c' g')).

(** [pattern.finditer]: leftmost matches, left to right, not
    overlapping; after an empty match the scan moves on by one
    character.  The fuel counts the positions left to try. *)
Fixpoint scan (fuel : nat) (r : regex) (c : cursor) : list rmatch :=
  match fuel with
  | O => []
  | S fuel' =>
      match match_at r c with
      | Some m =>
          m :: (if Nat.ltb (cur_pos c) (cur_pos (m_end m))
                then scan fuel' r (m_end m)
                else match cur_rest c with
                     | EmptyString => []
                     | String _ _ => scan fuel' r (advance c)
                     end)
      | None =>
          match cur_rest c with
          | EmptyString => []
          | String _ _ => scan fuel' r (advance c)
          end
      end
  end.

Definition finditer (r : regex) (s : string) : list rmatch :=
  scan (S (String.length s)) r (start s).

End Re.

(* ===================================================================== *)
(** ** The operating system as the analyzer sees it *)
(* ===================================================================== *)

(** A directory as [os.walk] lists it: the names of its non-directory
    entries and its sub-directories by name.  A sub-directory that
    [os.walk] lists but does not enter (a symbolic link, a directory it
    cannot read) has no subtree. *)
#[local] Unset Elimination Schemes.
Inductive tree :=
| Dir (files : list string) (subdirs : list (string * option tree)).
#[local] Set Elimination Schemes.

Record filesystem := {
  (** [os.path.exists] *)
  fs_exists : string -> bool;
  (** [open(path, 'r', encoding='utf-8', errors='replace').read()]: the
      decoded text, or the message of the exception raised. *)
  fs_read : string -> string + string;
  (** what [os.walk] finds at a path; [None] when it cannot list it *)
  fs_walk : string -> option tree
}.

Inductive exn :=
| FileNotFoundError (msg : string).

Inductive result (A : Type) :=
| Ok (a : A)
| Raise (e : exn).
Arguments Ok {A} a.
Arguments Raise {A} e.

(* ===================================================================== *)
(** ** [class ProjectAnalyzer] *)
(* ===================================================================== *)

Module Analyzer.
Import Re.
Local Open Scope re_scope.
Local Open Scope Z_scope.

(** The instance: [self.ignored_dirs], [self.code_extensions] and
    [self.file_cache]. *)
Record ProjectAnalyzer := {
  ignored_dirs : list string;
  code_extensions : list string;
  file_cache : gmap string string
}.

Definition with_cache (self : ProjectAnalyzer) (cache : gmap string string)
    : ProjectAnalyzer :=
  {| ignored_dirs := ignored_dirs self;
     code_extensions := code_extensions self;
     file_cache := cache |}.

(** The [project_info] dictionary of [analyze_project]; its keys are
    fixed. *)
Record project_info := {
  path : string;
  files : list string;
  file_count : Z;
  directories : list string;
  directory_count : Z;
  file_types : gmap string Z
}.

(** Values of the [file_info] dictionary. *)
Inductive value :=
| VStr (s : string)
| VInt (n : Z)
| VList (l : list string).

(** *** [analyze_project] *)

Section Walk.
(** [fnmatch.fnmatch name pattern] *)
Variable fnmatch : string -> string -> bool.
Variable self : ProjectAnalyzer.

Definition _is_ignored_dir (dir_name : string) : bool :=
  existsb (fun pattern => fnmatch dir_name pattern) (ignored_dirs self).

(** Lines 46-57: one file of the directory whose relative path is
    [rel_root]. *)
Definition visit_file (rel_root : string) (info : project_info)
    (file : string) : project_info :=
  let file_path := PosixPath.join rel_root file in
  let file_path := if String.eqb rel_root "." then file else file_path in
  let ext := Text.lower (snd (PosixPath.splitext file)) in
  {| path := path info;
     files := files info ++ [file_path];
     file_count := file_count info + 1;
     directories := directories info;
     directory_count := directory_count info;
     file_types :=
       if Text.nonempty ext
       then <[ext := default 0 (file_types info !! ext) + 1]>
              (file_types info)
       else file_types info |}.

(** Lines 41-57: the body of the loop for one [(root, dirs, files)]
    that [os.walk] yields, [root] being [comps] below the project. *)
Definition visit (comps : list string) (fnames : list string)
    (info : project_info) : project_info :=
  let rel_root := PosixPath.relpath comps in
  let info :=
    if negb (String.eqb rel_root ".")
    then {| path := path info;
            files := files info;
            file_count := file_count info;
            directories := directories info ++ [rel_root];
            directory_count := directory_count info + 1;
            file_types := file_types info |}
    else info in
  fold_left (visit_file rel_root) fnames info.

(** Lines 37-57: [os.walk] top-down; the loop body runs on a
    directory before [os.walk] descends, and line 39 removes the
    ignored names from the list it descends into. *)
Fixpoint walk (comps : list string) (t : tree) (info : project_info)
    : project_info :=
  match t with
  | Dir fnames subdirs =>
      (fix descend (l : list (string * option tree))
           (info : project_info) : project_info :=
         match l with
         | [] => info
         | (d, sub) :: l' =>
             if _is_ignored_dir d then descend l' info
             else match sub with
                  | Some t' => descend l' (walk (comps ++ [d]) t' info)
                  | None => descend l' info
                  end
         end) subdirs (visit comps fnames info)
  end.

Definition analyze_project (fs : filesystem) (project_path : string)
    : result project_info :=
  if negb (fs_exists fs project_path)
  then Raise (FileNotFoundError
                ("Project path does not exist: " +:+ project_path))
  else
    let project_info :=
      {| path := project_path;
         files := [];
         file_count := 0;
         directories := [];
         directory_count := 0;
         file_types := ∅ |} in
    Ok (match fs_walk fs project_path with
        | Some t => walk [] t project_info
        | None => project_info
        end).
End Walk.

(** *** [read_file] *)

(** The text returned, the instance afterwards and what was printed on
    the console. *)
Definition read_file (self : ProjectAnalyzer) (fs : filesystem)
    (file_path : string) : string * ProjectAnalyzer * list string :=
  match file_cache self !! file_path with
  | Some content => (content, self, [])
  | None =>
      match fs_read fs file_path with
      | inl content =>
          (content,
           with_cache self (<[file_path := content]> (file_cache self)),
           [])
      | inr e =>
          (EmptyString, self,
           ["[bold red]Error reading file " +:+ file_path +:+ ": "
            +:+ e +:+ "[/bold red]"])
      end
  end.

(** *** The extractors *)

Definition dquote : ascii := "034"%char.
Definition squote : ascii := "039"%char.

(** [match.group(n)] where the group takes part in every match of the
    pattern. *)
Definition group_str (m : rmatch) (n : nat) : string :=
  default EmptyString (group m n).

(** Truthiness of [match.group(n)]: neither [None] nor empty. *)
Definition group_truthy (m : rmatch) (n : nat) : bool :=
  match group m n with
  | Some s => Text.nonempty s
  | None => false
  end.

(** [x in (a, b, ...)] on strings. *)
Definition str_in (x : string) (l : list string) : bool :=
  existsb (String.eqb x) l.

Definition spaces1 : regex := Plus true (Chr Space).
Definition spaces0 : regex := Star true (Chr Space).
Definition word1 : regex := Plus true (Chr Word).

Module Python.
(** [^(?:from\s+(\S+)\s+)?import\s+(.+)$] *)
Definition import_pattern : regex :=
  Bol
  ⋅ Opt (Str "from" ⋅ spaces1 ⋅ Group 1 (Plus true (Chr NotSpace))
         ⋅ spaces1)
  ⋅ Str "import" ⋅ spaces1 ⋅ Group 2 (Plus true (Chr Dot)) ⋅ Eol.

(** [^def\s+([^\s(]+)] *)
Definition function_pattern : regex :=
  Bol ⋅ Str "def" ⋅ spaces1
  ⋅ Group 1 (Plus true (Chr (NoneOf [ASpace; ALit "("]))).

(** [^class\s+([^\s:(]+)] *)
Definition class_pattern : regex :=
  Bol ⋅ Str "class" ⋅ spaces1
  ⋅ Group 1 (Plus true (Chr (NoneOf [ASpace; ALit ":"; ALit "("]))).

(** Lines 164-170: what one match of [import_pattern] adds. *)
Definition import_step (imports : list string) (m : rmatch)
    : list string :=
  if group_truthy m 1 then
    let module := group_str m 1 in
    fold_left (fun acc item =>
                 acc ++ [module +:+ "." +:+ Text.strip item])
              (Text.split "," (group_str m 2)) imports
  else
    fold_left (fun acc item => acc ++ [Text.strip item])
              (Text.split "," (group_str m 2)) imports.
End Python.

Definition _analyze_python (content : string) : gmap string value :=
  let info : gmap string value :=
    {[ "imports" := VList []; "functions" := VList [];
       "classes" := VList [] ]} in
  let info :=
    <["imports" :=
        VList (fold_left Python.import_step
                 (finditer Python.import_pattern content) [])]> info in
  let info :=
    <["functions" :=
        VList (map (fun m => group_str m 1)
                 (finditer Python.function_pattern content))]> info in
  let info :=
    <["classes" :=
        VList (map (fun m => group_str m 1)
                 (finditer Python.class_pattern content))]> info in
  info.

Module C.
(** [#include\s+[<Q]([^>Q]+)[>Q]], writing [Q] for the double
    quote *)
Definition include_pattern : regex :=
  Str "#include" ⋅ spaces1
  ⋅ Chr (OneOf [ALit "<"; ALit dquote])
  ⋅ Group 1 (Plus true (Chr (NoneOf [ALit ">"; ALit dquote])))
  ⋅ Chr (OneOf [ALit ">"; ALit dquote]).

(** [(\w+)\s+(\w+)\s*\([^)]*\)\s*{] *)
Definition function_pattern : regex :=
  Group 1 word1 ⋅ spaces1 ⋅ Group 2 word1 ⋅ spaces0
  ⋅ Chr (Lit "(") ⋅ Star true (Chr (NoneOf [ALit ")"])) ⋅ Chr (Lit ")")
  ⋅ spaces0 ⋅ Chr (Lit "{").

(** [(struct|class|enum)\s+(\w+)] *)
Definition struct_pattern : regex :=
  Group 1 (Alt (Str "struct") (Alt (Str "class") (Str "enum")))
  ⋅ spaces1 ⋅ Group 2 word1.

Definition keywords : list string := ["if"; "for"; "while"; "switch"].

(** Lines 194-196: what one match of [function_pattern] adds. *)
Definition function_step (functions : list string) (m : rmatch)
    : list string :=
  if negb (str_in (group_str m 1) keywords)
  then functions ++ [group_str m 2]
  else functions.

(** Lines 198-199 *)
Definition struct_step (structs : list string) (m : rmatch)
    : list string :=
  structs ++ [group_str m 1 +:+ " " +:+ group_str m 2].
End C.

Definition _analyze_c_cpp (content : string) : gmap string value :=
  let info : gmap string value :=
    {[ "includes" := VList []; "functions" := VList [];
       "structs" := VList [] ]} in
  let info :=
    <["includes" :=
        VList (map (fun m => group_str m 1)
                 (finditer C.include_pattern content))]> info in
  let info :=
    <["functions" :=
        VList (fold_left C.function_step
                 (finditer C.function_pattern content) [])]> info in
  let info :=
    <["structs" :=
        VList (fold_left C.struct_step
                 (finditer C.struct_pattern content) [])]> info in
  info.

Module JavaScript.
(** [(import|require)\s+.+?['Q]([^'Q]+)['Q]], writing [Q] for the
    double quote *)
Definition import_pattern : regex :=
  Group 1 (Alt (Str "import") (Str "require")) ⋅ spaces1
  ⋅ Plus false (Chr Dot)
  ⋅ Chr (OneOf [ALit squote; ALit dquote])
  ⋅ Group 2 (Plus true (Chr (NoneOf [ALit squote; ALit dquote])))
  ⋅ Chr (OneOf [ALit squote; ALit dquote]).

(** [function\s+(\w+)|(\w+)\s*=\s*function] *)
Definition function_pattern : regex :=
  Alt (Str "function" ⋅ spaces1 ⋅ Group 1 word1)
      (Group 2 word1 ⋅ spaces0 ⋅ Chr (Lit "=") ⋅ spaces0
       ⋅ Str "function").

(** [class\s+(\w+)] *)
Definition class_pattern : regex :=
  Str "class" ⋅ spaces1 ⋅ Group 1 word1.

(** Lines 219-222: [func_name = match.group(1) or match.group(2)]. *)
Definition function_step (functions : list string) (m : rmatch)
    : list string :=
  let func_name :=
    if group_truthy m 1 then group m 1 else group m 2 in
  match func_name with
  | Some name => if Text.nonempty name then functions ++ [name]
                 else functions
  | None => functions
  end.
End JavaScript.

Definition _analyze_javascript (content : string) : gmap string value :=
  let info : gmap string value :=
    {[ "imports" := VList []; "functions" := VList [];
       "classes" := VList [] ]} in
  let info :=
    <["imports" :=
        VList (map (fun m => group_str m 2)
                 (finditer JavaScript.import_pattern content))]> info in
  let info :=
    <["functions" :=
        VList (fold_left JavaScript.function_step
                 (finditer JavaScript.function_pattern content) [])]>
      info in
  let info :=
    <["classes" :=
        VList (map (fun m => group_str m 1)
                 (finditer JavaScript.class_pattern content))]> info in
  info.

(** *** [analyze_file] *)

Definition recognized : list string := ["py"; "js"; "c"; "cpp"; "h"].

(** [file_info.update(info)]: the keys of [info] win. *)
Definition update (file_info info : gmap string value)
    : gmap string value := info ∪ file_info.

Definition analyze_file (self : ProjectAnalyzer) (fs : filesystem)
    (file_path : string) (content : option string)
    : result (gmap string value) * ProjectAnalyzer * list string :=
  if negb (fs_exists fs file_path)
  then (Raise (FileNotFoundError
                 ("File does not exist: " +:+ file_path)), self, [])
  else
    let '(content, self, printed) :=
      match content with
      | None => read_file self fs file_path
      | Some content => (content, self, [])
      end in
    let ext :=
      Text.lstrip_char "."
        (Text.lower (snd (PosixPath.splitext file_path))) in
    let file_info : gmap string value :=
      {[ "path" := VStr file_path;
         "type" := VStr ext;
         "lines" := VInt (Text.count Text.newline content + 1);
         "size" := VInt (Text.len content) ]} in
    let file_info :=
      if str_in ext recognized then
        if String.eqb ext "py"
        then update file_info (_analyze_python content)
        else if str_in ext ["c"; "cpp"; "h"]
        then update file_info (_analyze_c_cpp content)
        else if String.eqb ext "js"
        then update file_info (_analyze_javascript content)
        else file_info
      else file_info in
    (Ok file_info, self, printed).

(** *** [get_project_summary] *)

(** The [summary] dictionary; its keys are fixed. *)
Record project_summary := {
  summary_path : string;
  summary_file_count : Z;
  summary_directory_count : Z;
  summary_file_types : gmap string Z;
  important_files : list string
}.

(** Lines 124-126: one file of [project_info['files']]. *)
Definition important_step (important : list string) (file : string)
    : list string :=
  let lower_file := Text.lower file in
  if existsb (fun pattern => Text.has_substring pattern lower_file)
       ["main"; "index"; "app"; "config"]
  then important ++ [file]
  else important.

Section Summary.
Variable fnmatch : string -> string -> bool.
Variable self : ProjectAnalyzer.

Definition get_project_summary (fs : filesystem) (project_path : string)
    : result project_summary :=
  match analyze_project fnmatch self fs project_path with
  | Raise e => Raise e
  | Ok project_info =>
      Ok {| summary_path := path project_info;
            summary_file_count := file_count project_info;
            summary_directory_count := directory_count project_info;
            summary_file_types := file_types project_info;
            important_files :=
              fold_left important_step (files project_info) [] |}
  end.
End Summary.

(** *** [get_file_context] *)

(** [line_number] is [None] or an integer; [context_lines] is 5 when the
    caller leaves it out. *)
Definition get_file_context (self : ProjectAnalyzer) (fs : filesystem)
    (file_path : string) (line_number : option Z) (context_lines : Z)
    : string * ProjectAnalyzer * list string :=
  let '(content, self, printed) := read_file self fs file_path in
  let lines := Text.splitlines content in
  match line_number with
  | None => (content, self, printed)
  | Some line_number =>
      let start := Z.max 0 (line_number - context_lines - 1) in
      let stop :=
        Z.min (Z.of_nat (length lines)) (line_number + context_lines) in
      (Text.join Text.nl (Text.slice lines start stop), self, printed)
  end.

End Analyzer.

(* ===================================================================== *)
(** ** [class CodeGenerator]: [_extract_code] *)
(* ===================================================================== *)

Module CodeGenerator.
Import Re.
Local Open Scope re_scope.

Definition backtick : ascii := "096"%char.

(** Three backticks. *)
Definition fence : string :=
  String backtick (String backtick (String backtick EmptyString)).

(** The pattern of line 151, [FFF(?:\w+)?\n(.*?)FFF] with [F] for the
    backtick, under DOTALL: its dot is any character, the empty negated
    bracket. *)
Definition code_block_pattern : regex :=
  Str fence ⋅ Opt (Plus true (Chr Word)) ⋅ Chr (Lit Text.newline)
  ⋅ Group 1 (Star false (Chr (NoneOf []))) ⋅ Str fence.

(** [re.findall] with one group: the group of every match. *)
Definition findall1 (r : regex) (s : string) : list string :=
  map (fun m => default EmptyString (group m 1)) (finditer r s).

Definition _extract_code (response : string) : string :=
  let code_blocks := findall1 code_block_pattern response in
  match code_blocks with
  | block :: _ => Text.strip block
  | [] => Text.strip response
  end.

End CodeGenerator.

(* ===================================================================== *)
(** ** Directory listings of a real file system *)
(* ===================================================================== *)

(** A name of a directory entry is not empty and holds no slash. *)
Definition valid_name (s : string) : bool :=
  Text.nonempty s && negb (Text.contains "/" s).

(** Every name in the tree is a valid name. *)
Fixpoint valid_tree (t : tree) : bool :=
  match t with
  | Dir fnames subdirs =>
      forallb valid_name fnames
      && (fix all (l : list (string * option tree)) : bool :=
            match l with
            | [] => true
            | (d, sub) :: l' =>
                valid_name d
                && match sub with
                   | Some t' => valid_tree t'
                   | None => true
                   end
                && all l'
            end) subdirs
  end.

(** The entries of a tree, files and directories alike, each as the list
    of names from the root down to it. *)
Fixpoint entry_paths (t : tree) : list (list string) :=
  match t with
  | Dir fnames subdirs =>
      map (fun f => [f]) fnames
      ++ (fix below (l : list (string * option tree)) : list (list string) :=
            match l with
            | [] => []
            | (d, sub) :: l' =>
                [d]
                :: match sub with
                   | Some t' => map (cons d) (entry_paths t')
                   | None => []
                   end
                ++ below l'
            end) subdirs
  end.

(* ===================================================================== *)
(** ** Sample inputs *)
(* ===================================================================== *)

Module Sample.
Import Analyzer.

(** [fnmatch.fnmatch] on patterns without bracket expressions: [*]
    stands for any text, [?] for any one character. *)
Fixpoint fnmatch_glob_aux (pattern name : string) : bool :=
  match pattern with
  | EmptyString =>
      match name with EmptyString => true | _ => false end
  | String "*" pattern' =>
      (fix star (name : string) : bool :=
         fnmatch_glob_aux pattern' name
         || match name with
            | EmptyString => false
            | String _ name' => star name'
            end) name
  | String "?" pattern' =>
      match name with
      | String _ name' => fnmatch_glob_aux pattern' name'
      | EmptyString => false
      end
  | String c pattern' =>
      match name with
      | String d name' => Ascii.eqb c d && fnmatch_glob_aux pattern' name'
      | EmptyString => false
      end
  end.

Definition fnmatch_glob (name pattern : string) : bool :=
  fnmatch_glob_aux pattern name.

Definition analyzer : ProjectAnalyzer :=
  {| ignored_dirs := [".git"; "node_modules"; "__pycache__"; "*.egg-info"];
     code_extensions := [".py"; ".js"; ".c"];
     file_cache := ∅ |}.

Definition project : tree :=
  Dir ["main.py"; "Makefile"; "README"; ".gitignore"]
      [ ("src", Some (Dir ["app.py"; "view.JS"]
                   [ ("node_modules",
                       Some (Dir ["index.js"]
                               [("deep", Some (Dir ["util.c"] []))]));
                     ("lib", Some (Dir ["core.c"; "core.h"] [])) ]));
        (".git", Some (Dir ["config"] []));
        ("vendor", None) ].

(** A disk holding [project] at [/proj] and one readable file. *)
Definition disk : filesystem :=
  {| fs_exists := fun p => String.eqb p "/proj"
                           || String.eqb p "/proj/main.py"
                           || String.eqb p "/proj/notes.xyz";
     fs_read := fun p => if String.eqb p "/proj/main.py"
                         then inl "import os"
                         else inr "[Errno 2] No such file or directory";
     fs_walk := fun p => if String.eqb p "/proj" then Some project
                         else None |}.

(** The same disk after [/proj/notes.xyz] has become readable. *)
Definition disk_later : filesystem :=
  {| fs_exists := fs_exists disk;
     fs_read := fun p => if String.eqb p "/proj/notes.xyz"
                         then inl "remember the milk"
                         else fs_read disk p;
     fs_walk := fs_walk disk |}.

End Sample.

(* ===================================================================== *)
(** ** Vocabulary of the statements *)
(* ===================================================================== *)

Import Analyzer.
Import Re.

Section TreeInduction.
Variable P : tree -> Prop.
Hypothesis HDir : forall fnames subdirs,
  Forall (fun e => match snd e with Some t => P t | None => True end)
         subdirs ->
  P (Dir fnames subdirs).

Fixpoint tree_induction (t : tree) : P t :=
  match t with
  | Dir fnames subdirs =>
      HDir fnames subdirs
        ((fix all (l : list (string * option tree)) :
            Forall (fun e => match snd e with
                             | Some t => P t
                             | None => True
                             end) l :=
            match l with
            | [] => List.Forall_nil _
            | (d, sub) :: l' =>
                List.Forall_cons _ (d, sub) l'
                  (match sub as o
                     return match o with Some t => P t | None => True end
                   with
                   | Some t' => tree_induction t'
                   | None => I
                   end)
                  (all l')
            end) subdirs)
  end.
End TreeInduction.

Definition counts_agree (info : project_info) : Prop :=
  file_count info = Z.of_nat (length (files info))
  /\ directory_count info = Z.of_nat (length (directories info)).

(** The three results of [read_file]. *)
Definition text_of (r : string * ProjectAnalyzer * list string) : string :=
  fst (fst r).

Definition self_of (r : string * ProjectAnalyzer * list string)
    : ProjectAnalyzer := snd (fst r).

Definition printed_of (r : string * ProjectAnalyzer * list string)
    : list string := snd r.

(** The [ext] of [analyze_file], line 71. *)
Definition extension_of (file_path : string) : string :=
  Text.lstrip_char "." (Text.lower (snd (PosixPath.splitext file_path))).

Definition base_fields : gset string :=
  {[ "path"; "type"; "lines"; "size" ]}.

(** The keys the extractor of a recognized extension adds. *)
Definition language_fields (ext : string) : gset string :=
  if String.eqb ext "py" || String.eqb ext "js"
  then {[ "imports"; "functions"; "classes" ]}
  else {[ "includes"; "functions"; "structs" ]}.

(** The [file_path] of lines 47-49. *)
Definition file_path_of (rel_root file : string) : string :=
  if String.eqb rel_root "." then file else PosixPath.join rel_root file.

(** The sum of all counts of a histogram. *)
Definition total (m : gmap string Z) : Z :=
  map_fold (fun _ v acc => (v + acc)%Z) 0%Z m.

(** The [ext] of line 55 is not empty. *)
Definition has_extension (p : string) : bool :=
  Text.nonempty (Text.lower (snd (PosixPath.splitext p))).

(** A directory listing with one file that has no extension. *)
Definition makefile_only : filesystem :=
  {| fs_exists := fun p => String.eqb p "/work";
     fs_read := fun _ => inr "[Errno 21] Is a directory";
     fs_walk := fun p => if String.eqb p "/work"
                         then Some (Dir ["Makefile"] [])
                         else None |}.

Definition histogram_agrees (info : project_info) : Prop :=
  file_types info !! EmptyString = None
  /\ total (file_types info)
     = Z.of_nat (length (List.filter has_extension (files info))).

(** A name the walk may descend into, [ignored] being the test of
    line 39. *)
Definition passable_for (ignored : string -> bool) (s : string) : Prop :=
  valid_name s = true /\ ignored s = false.

(** Every recorded path spells a chain of directories the walk was
    allowed to enter. *)
Definition reached_only_for (ignored : string -> bool)
    (info : project_info) : Prop :=
  (forall p, In p (files info) ->
     exists cs f, p = Text.join "/" (cs ++ [f])
                  /\ Forall (passable_for ignored) cs
                  /\ valid_name f = true)
  /\ (forall p, In p (directories info) ->
        exists cs, p = Text.join "/" cs
                   /\ Forall (passable_for ignored) cs).

(** [c'] lies at or after [c] in the same text. *)
Definition forward (c c' : cursor) : Prop :=
  cur_pos c <= cur_pos c'
  /\ cur_pos c' + String.length (cur_rest c')
     = cur_pos c + String.length (cur_rest c).

(** Whatever a match returns comes from its continuation, called at a
    cursor further on. *)
Definition from_continuation {R}
    (body : cursor -> groups -> (cursor -> groups -> option R) -> option R)
    : Prop :=
  forall c g k x, body c g k = Some x ->
                  exists c' g', forward c c' /\ k c' g' = Some x.

(** The cursor after the text [u] has been consumed. *)
Fixpoint after (u : string) (c : cursor) : cursor :=
  match u with
  | EmptyString => c
  | String _ u' => after u' (advance c)
  end.

(** Every character of a text is in a class. *)
Fixpoint all_in (p : ascii -> bool) (u : string) : bool :=
  match u with
  | EmptyString => true
  | String a u' => p a && all_in p u'
  end.

(** A text does not go on with a character of a class. *)
Definition stops (p : ascii -> bool) (rest : string) : bool :=
  match rest with
  | EmptyString => true
  | String a _ => negb (p a)
  end.

(** A word of [\w] characters. *)
Definition is_word_text (w : string) : bool :=
  Text.nonempty w && all_in Text.is_word w.

(** A parameter list: no closing parenthesis inside. *)
Definition is_params (p : string) : bool :=
  all_in (fun a => negb (Ascii.eqb a ")")) p.

(** [<w1> <w2>(<params>) {] *)
Definition declaration (w1 w2 params : string) : string :=
  w1 +:+ " " +:+ w2 +:+ "(" +:+ params +:+ ") {".

(** An import statement on a line of its own. *)
Inductive import_stmt :=
| Import (names : string)
| FromImport (module names : string).

Definition render (st : import_stmt) : string :=
  match st with
  | Import names => "import " +:+ names
  | FromImport module names => "from " +:+ module +:+ " import " +:+ names
  end.

(** The lines of a text, each closed by a newline. *)
Fixpoint program (stmts : list import_stmt) : string :=
  match stmts with
  | [] => EmptyString
  | st :: stmts' => render st +:+ Text.nl +:+ program stmts'
  end.

(** What the specification expects for a statement. *)
Definition expanded (st : import_stmt) : list string :=
  match st with
  | Import names => map Text.strip (Text.split "," names)
  | FromImport module names =>
      map (fun name => module +:+ "." +:+ Text.strip name)
          (Text.split "," names)
  end.

(** A module name: not empty, no white space. *)
Definition is_module (s : string) : bool :=
  Text.nonempty s && all_in (fun a => negb (Text.is_space a)) s.

(** A list of names: starts with a character that is not white space and
    stays on its line. *)
Definition is_names (s : string) : bool :=
  stops Text.is_space s && Text.nonempty s
  && all_in (fun a => negb (Ascii.eqb a Text.newline)) s.

Definition is_import (st : import_stmt) : bool :=
  match st with
  | Import names => is_names names
  | FromImport module names => is_module module && is_names names
  end.

(** *** Vocabulary of the further properties *)

(** A name of a directory entry other than [.]. *)
Definition proper_name (s : string) : bool :=
  valid_name s && negb (String.eqb s ".").

(** Every name in the tree is a proper name. *)
Fixpoint proper_tree (t : tree) : bool :=
  match t with
  | Dir fnames subdirs =>
      forallb proper_name fnames
      && (fix all (l : list (string * option tree)) : bool :=
            match l with
            | [] => true
            | (d, sub) :: l' =>
                proper_name d
                && match sub with
                   | Some t' => proper_tree t'
                   | None => true
                   end
                && all l'
            end) subdirs
  end.

(** The files of a tree that lie below no ignored directory and no
    directory that cannot be entered, in the order of a top-down walk,
    each as the list of names from the root down to it. *)
Fixpoint listed_files (ignored : string -> bool) (t : tree)
    : list (list string) :=
  match t with
  | Dir fnames subdirs =>
      map (fun f => [f]) fnames
      ++ (fix below (l : list (string * option tree)) : list (list string) :=
            match l with
            | [] => []
            | (d, sub) :: l' =>
                (if ignored d then []
                 else match sub with
                      | Some t' => map (cons d) (listed_files ignored t')
                      | None => []
                      end)
                ++ below l'
            end) subdirs
  end.

(** The directories the walk enters, the root left out. *)
Fixpoint listed_dirs (ignored : string -> bool) (t : tree)
    : list (list string) :=
  match t with
  | Dir _ subdirs =>
      (fix below (l : list (string * option tree)) : list (list string) :=
         match l with
         | [] => []
         | (d, sub) :: l' =>
             (if ignored d then []
              else match sub with
                   | Some t' => [d] :: map (cons d) (listed_dirs ignored t')
                   | None => []
                   end)
             ++ below l'
         end) subdirs
  end.

(** The relative path of a walked directory, as [directories] holds
    it. *)
Definition self_entry (comps : list string) : list string :=
  match comps with
  | [] => []
  | _ => [Text.join "/" comps]
  end.

(** The lower-cased extension of a path, as line 55 computes it. *)
Definition lower_ext (p : string) : string :=
  Text.lower (snd (PosixPath.splitext p)).

(** How many paths have the non-empty lower-cased extension [k]. *)
Definition count_ext (k : string) (paths : list string) : Z :=
  Z.of_nat (length (List.filter
                      (fun p => Text.nonempty k && String.eqb (lower_ext p) k)
                      paths)).

(** The test of line 125. *)
Definition is_important (file : string) : bool :=
  existsb (fun pattern => Text.has_substring pattern (Text.lower file))
    ["main"; "index"; "app"; "config"].

(** A project whose directory [WebApp] holds files with plain names. *)
Definition webapp_disk : filesystem :=
  {| fs_exists := fun p => String.eqb p "/srv";
     fs_read := fun _ => inr "[Errno 21] Is a directory";
     fs_walk := fun p =>
       if String.eqb p "/srv"
       then Some (Dir ["README"; "Main.PY"]
                    [("WebApp", Some (Dir ["util.c"; "notes"] []))])
       else None |}.

(** The numbers of the capturing groups of a pattern. *)
Fixpoint captures (r : regex) : list nat :=
  match r with
  | Seq r1 r2 | Alt r1 r2 => captures r1 ++ captures r2
  | Star _ r1 => captures r1
  | Group n r1 => n :: captures r1
  | _ => []
  end.

(** A name made of characters of a class, at least one. *)
Definition name_of (cl : cls) (s : string) : bool :=
  Text.nonempty s && all_in (cls_match cl) s.

(** A text stays on its line. *)
Definition same_line (s : string) : bool :=
  all_in (fun a => negb (Ascii.eqb a Text.newline)) s.

(** A line of a Python text: [def <name><tail>], [class <name><tail>]
    or anything else. *)
Inductive py_line :=
| DefLine (name tail : string)
| ClassLine (name tail : string)
| OtherLine (text : string).

Definition line_text (l : py_line) : string :=
  match l with
  | DefLine name tail => "def " +:+ name +:+ tail
  | ClassLine name tail => "class " +:+ name +:+ tail
  | OtherLine text => text
  end.

(** The lines of a text, each closed by a newline. *)
Fixpoint source (ls : list py_line) : string :=
  match ls with
  | [] => EmptyString
  | l :: ls' => line_text l +:+ Text.nl +:+ source ls'
  end.

Definition def_class : cls := NoneOf [ASpace; ALit "("].
Definition class_class : cls := NoneOf [ASpace; ALit ":"; ALit "("].

(** The name of a header line ends where its tail begins; a line that is
    no header starts with neither keyword, as an indented line does. *)
Definition is_py_line (l : py_line) : bool :=
  match l with
  | DefLine name tail =>
      name_of def_class name && stops (cls_match def_class) tail
      && same_line tail
  | ClassLine name tail =>
      name_of class_class name && stops (cls_match class_class) tail
      && same_line tail
  | OtherLine text =>
      same_line text && negb (Text.starts_with "def" text)
      && negb (Text.starts_with "class" text)
  end.

Definition def_names (ls : list py_line) : list string :=
  flat_map (fun l => match l with DefLine name _ => [name] | _ => [] end) ls.

Definition class_names (ls : list py_line) : list string :=
  flat_map (fun l => match l with ClassLine name _ => [name] | _ => [] end)
    ls.

(** A line as a header pattern [^kw\s+(cl+)] sees it: its text and, for a
    header line, the name after the keyword. *)
Definition header_ok (kw : string) (cl : cls)
    (line : string * option string) : Prop :=
  same_line (fst line) = true
  /\ match snd line with
     | Some name =>
         exists tail,
           fst line = kw +:+ " " +:+ name +:+ tail
           /\ name_of cl name = true
           /\ stops (cls_match cl) (tail +:+ Text.nl) = true
     | None => Text.starts_with kw (fst line) = false
     end.

Fixpoint text_of_lines (lines : list (string * option string)) : string :=
  match lines with
  | [] => EmptyString
  | line :: lines' => fst line +:+ Text.nl +:+ text_of_lines lines'
  end.

Definition def_view (l : py_line) : string * option string :=
  (line_text l, match l with DefLine name _ => Some name | _ => None end).

Definition class_view (l : py_line) : string * option string :=
  (line_text l, match l with ClassLine name _ => Some name | _ => None end).

(** The keys of the histogram are lower-case extensions with their dot,
    counted at least once. *)
Definition keys_well_formed (info : project_info) : Prop :=
  forall k n, file_types info !! k = Some n ->
    (exists r, k = String "." r) /\ Text.lower k = k /\ (1 <= n)%Z.

(** The histogram counts the recorded files by lower-cased extension. *)
Definition counted_by_extension (info : project_info) : Prop :=
  forall k, file_types info !! k
            = if (count_ext k (files info) =? 0)%Z then None
              else Some (count_ext k (files info)).

(** The record of [analyze_file] for a text: lines 71-90. *)
Definition file_record (file_path content : string) : gmap string value :=
  let ext := extension_of file_path in
  let file_info : gmap string value :=
    {[ "path" := VStr file_path;
       "type" := VStr ext;
       "lines" := VInt (Text.count Text.newline content + 1);
       "size" := VInt (Text.len content) ]} in
  if str_in ext recognized then
    if String.eqb ext "py"
    then update file_info (_analyze_python content)
    else if str_in ext ["c"; "cpp"; "h"]
    then update file_info (_analyze_c_cpp content)
    else if String.eqb ext "js"
    then update file_info (_analyze_javascript content)
    else file_info
  else file_info.

(** A match hands to its continuation the groups it was given, but for
    the groups of its own. *)
Definition keeps_groups {R : Type}
    (body : cursor -> gmap nat string ->
            (cursor -> gmap nat string -> option R) -> option R)
    (own : list nat) : Prop :=
  forall c g k x, body c g k = Some x ->
    exists c' g', k c' g' = Some x
                  /\ forall n, ~ In n own -> g' !! n = g !! n.

(** A response with a fenced code block: text, three backticks, a
    language tag, a newline, the code, three backticks, text. *)
Definition fenced (pre lang code post : string) : string :=
  pre +:+ CodeGenerator.fence +:+ lang +:+ Text.nl +:+ code
  +:+ CodeGenerator.fence +:+ post.

(** A text without its final newline, if it has one. *)
Fixpoint chomp (s : string) : string :=
  match s with
  | EmptyString => EmptyString
  | String c EmptyString =>
      if Ascii.eqb c Text.newline then EmptyString else s
  | String c s' => String c (chomp s')
  end.

(** The only line breaks of a text are newlines. *)
Definition unix_text (s : string) : bool :=
  all_in (fun c => negb (Text.is_linebreak c) || Ascii.eqb c Text.newline) s.

(* ===================================================================== *)
(** ** Facts about the directory walk *)
(* ===================================================================== *)

Section WalkFacts.
Variable fnmatch : string -> string -> bool.
Variable self : ProjectAnalyzer.

Local Abbreviation walk := (walk fnmatch self).
Local Abbreviation ignored := (_is_ignored_dir fnmatch self).

(** A property of [project_info] that the loop body keeps is kept by
    the whole walk. *)
Lemma walk_invariant (Inv : project_info -> Prop) :
  (forall comps fnames info, Inv info -> Inv (visit comps fnames info)) ->
  forall t comps info, Inv info -> Inv (walk comps t info).
Proof.
  intros Hvisit t. induction t as [fnames subdirs IH] using tree_induction.
  intros comps info Hinfo. simpl.
  generalize (Hvisit comps fnames info Hinfo).
  generalize (visit comps fnames info). clear Hinfo info.
  induction IH as [|[d sub] l Hd Hl IHl]; intros info Hinfo; [exact Hinfo|].
  destruct (ignored d); [now apply IHl|].
  destruct sub as [t'|]; [|now apply IHl].
  apply IHl. now apply Hd.
Qed.

(** The same for a property that needs valid names; [Good] describes
    the directories the walk reaches. *)
Lemma walk_invariant_valid (Inv : project_info -> Prop)
    (Good : list string -> Prop) :
  (forall comps fnames info,
      Good comps -> forallb valid_name fnames = true ->
      Inv info -> Inv (visit comps fnames info)) ->
  (forall comps d,
      Good comps -> valid_name d = true -> ignored d = false ->
      Good (comps ++ [d])) ->
  forall t comps info,
    valid_tree t = true -> Good comps -> Inv info ->
    Inv (walk comps t info).
Proof.
  intros Hvisit Hgood t.
  induction t as [fnames subdirs IH] using tree_induction.
  intros comps info Hvalid Hcomps Hinfo. simpl in *.
  apply andb_prop in Hvalid as [Hfiles Hsub].
  generalize (Hvisit comps fnames info Hcomps Hfiles Hinfo).
  generalize (visit comps fnames info). clear Hinfo info Hfiles.
  induction IH as [|[d sub] l Hd Hl IHl]; intros info Hinfo; [exact Hinfo|].
  apply andb_prop in Hsub as [Hsub Hl'].
  apply andb_prop in Hsub as [Hname Ht'].
  destruct (ignored d) eqn:Hign; [now apply IHl|].
  destruct sub as [t'|]; [|now apply IHl].
  apply IHl; [exact Hl'|]. apply Hd; auto.
Qed.

Lemma visit_file_counts rel_root info file :
  file_count info = Z.of_nat (length (files info)) ->
  file_count (visit_file rel_root info file)
  = Z.of_nat (length (files (visit_file rel_root info file))).
Proof.
  intros H. simpl. rewrite length_app, H. simpl. lia.
Qed.

Lemma visit_files_directories rel_root fnames info :
  directories (fold_left (visit_file rel_root) fnames info)
  = directories info
  /\ directory_count (fold_left (visit_file rel_root) fnames info)
     = directory_count info.
Proof.
  revert info. induction fnames as [|f l IH]; intros info; [easy|].
  simpl. destruct (IH (visit_file rel_root info f)) as [-> ->]. easy.
Qed.

Lemma visit_files_counts rel_root fnames info :
  file_count info = Z.of_nat (length (files info)) ->
  file_count (fold_left (visit_file rel_root) fnames info)
  = Z.of_nat (length (files (fold_left (visit_file rel_root) fnames info))).
Proof.
  revert info. induction fnames as [|f l IH]; intros info H; [easy|].
  simpl. apply IH. now apply visit_file_counts.
Qed.

Lemma visit_counts comps fnames info :
  counts_agree info -> counts_agree (visit comps fnames info).
Proof.
  intros [Hf Hd]. unfold visit, counts_agree.
  match goal with
  | |- context [fold_left _ _ ?i] => set (info1 := i)
  end.
  destruct (visit_files_directories (PosixPath.relpath comps) fnames info1)
    as [-> ->].
  split.
  - apply visit_files_counts. subst info1.
    destruct (negb _); simpl; exact Hf.
  - subst info1. destruct (negb _); simpl; [|exact Hd].
    rewrite length_app, Hd. simpl. lia.
Qed.

(** C9: in every [project_info] that [analyze_project] returns,
    [file_count] is the length of [files] and [directory_count] the
    length of [directories]. *)
Theorem analyze_project_counts fs project_path info :
  analyze_project fnmatch self fs project_path = Ok info ->
  file_count info = Z.of_nat (length (files info))
  /\ directory_count info = Z.of_nat (length (directories info)).
Proof.
  unfold analyze_project. destruct (negb _); [discriminate|].
  intros [= <-]. destruct (fs_walk fs project_path) as [t|].
  - apply (walk_invariant counts_agree).
    + intros; now apply visit_counts.
    + split; reflexivity.
  - split; reflexivity.
Qed.

End WalkFacts.

Lemma analyze_project_counts_witness :
  exists info,
    analyze_project Sample.fnmatch_glob Sample.analyzer Sample.disk "/proj"
    = Ok info
    /\ file_count info = Z.of_nat (length (files info))
    /\ directory_count info = Z.of_nat (length (directories info)).
Proof.
  eexists. split; [reflexivity|].
  apply (analyze_project_counts Sample.fnmatch_glob Sample.analyzer
           Sample.disk "/proj").
  reflexivity.
Defined.

(* ===================================================================== *)
(** ** [read_file] and its cache *)
(* ===================================================================== *)

Section ReadFile.
Implicit Types (self : ProjectAnalyzer) (fs : filesystem).

Lemma read_file_cached self fs file_path content :
  file_cache self !! file_path = Some content ->
  read_file self fs file_path = (content, self, []).
Proof. intros H. unfold read_file. now rewrite H. Qed.

Lemma read_file_fresh self fs file_path content :
  file_cache self !! file_path = None ->
  fs_read fs file_path = inl content ->
  read_file self fs file_path
  = (content,
     with_cache self (<[file_path := content]> (file_cache self)), []).
Proof. intros Hc Hr. unfold read_file. now rewrite Hc, Hr. Qed.

Lemma read_file_failed self fs file_path e :
  file_cache self !! file_path = None ->
  fs_read fs file_path = inr e ->
  text_of (read_file self fs file_path) = EmptyString
  /\ self_of (read_file self fs file_path) = self.
Proof. intros Hc Hr. unfold read_file. now rewrite Hc, Hr. Qed.

(** After a call the path is cached exactly when the text came from the
    cache or from the disk. *)
Lemma read_file_caches self fs file_path :
  file_cache self !! file_path <> None
  \/ (exists content, fs_read fs file_path = inl content) ->
  file_cache (self_of (read_file self fs file_path)) !! file_path
  = Some (text_of (read_file self fs file_path)).
Proof.
  unfold read_file.
  destruct (file_cache self !! file_path) as [c|] eqn:Hc; [now intros _|].
  intros [H|[content Hr]]; [congruence|].
  rewrite Hr. simpl. apply lookup_insert_eq.
Qed.

(** C4, as amended: when the first of two calls for a path finds it in
    the cache or reads it from the disk, the second call returns the same
    text whatever the disk holds by then. *)
Theorem read_file_idempotent_after_success self fs1 fs2 file_path :
  file_cache self !! file_path <> None
  \/ (exists content, fs_read fs1 file_path = inl content) ->
  text_of (read_file (self_of (read_file self fs1 file_path)) fs2 file_path)
  = text_of (read_file self fs1 file_path).
Proof.
  intros H. apply read_file_caches in H.
  now rewrite (read_file_cached _ fs2 _ _ H).
Qed.

(** C10: a failed read returns the empty text and leaves the instance,
    hence the cache, as it was; the next call for the path reads the disk
    again; and whatever the cache holds after a call was there before or
    is the text just read from the disk. *)
Theorem read_file_failure_not_cached self fs file_path e :
  file_cache self !! file_path = None ->
  fs_read fs file_path = inr e ->
  (text_of (read_file self fs file_path) = EmptyString
   /\ self_of (read_file self fs file_path) = self
   /\ file_cache (self_of (read_file self fs file_path)) !! file_path = None)
  /\ (forall fs' content,
         fs_read fs' file_path = inl content ->
         text_of (read_file (self_of (read_file self fs file_path))
                    fs' file_path) = content)
  /\ (forall fs' p q content,
         file_cache (self_of (read_file self fs' p)) !! q = Some content ->
         file_cache self !! q = Some content
         \/ (q = p /\ fs_read fs' p = inl content)).
Proof.
  intros Hc Hr.
  destruct (read_file_failed self fs file_path e Hc Hr) as [Ht Hs].
  repeat split; auto.
  - now rewrite Hs.
  - intros fs' content Hr'. rewrite Hs.
    now rewrite (read_file_fresh self fs' file_path content Hc Hr').
  - intros fs' p q t. unfold read_file.
    destruct (file_cache self !! p) as [c|] eqn:Hp; [now left|].
    destruct (fs_read fs' p) as [c|e'] eqn:Hr'; [|now left].
    simpl. destruct (decide (p = q)) as [->|Hne].
    + rewrite lookup_insert_eq. intros [= ->]. now right.
    + rewrite lookup_insert_ne by exact Hne. now left.
Qed.

End ReadFile.

Lemma read_file_idempotent_after_success_witness :
  text_of (read_file
             (self_of (read_file Sample.analyzer Sample.disk "/proj/main.py"))
             Sample.disk_later "/proj/main.py")
  = text_of (read_file Sample.analyzer Sample.disk "/proj/main.py").
Proof.
  apply (read_file_idempotent_after_success Sample.analyzer Sample.disk
           Sample.disk_later "/proj/main.py").
  right. exists "import os". reflexivity.
Defined.

(** C4 as stated fails: the first call finds [/proj/notes.xyz] unreadable
    and returns the empty text, the file becomes readable, and the second
    call returns its text. *)
Lemma read_file_not_idempotent :
  let first := read_file Sample.analyzer Sample.disk "/proj/notes.xyz" in
  let second := read_file (self_of first) Sample.disk_later "/proj/notes.xyz" in
  file_cache (self_of first) = file_cache Sample.analyzer
  /\ text_of first = EmptyString
  /\ text_of second = "remember the milk"
  /\ text_of first <> text_of second.
Proof. repeat split; discriminate. Qed.

Lemma read_file_failure_not_cached_witness :
  text_of (read_file Sample.analyzer Sample.disk "/proj/notes.xyz")
  = EmptyString
  /\ text_of (read_file
                (self_of (read_file Sample.analyzer Sample.disk
                            "/proj/notes.xyz"))
                Sample.disk_later "/proj/notes.xyz") = "remember the milk".
Proof.
  destruct (read_file_failure_not_cached Sample.analyzer Sample.disk
              "/proj/notes.xyz" "[Errno 2] No such file or directory"
              eq_refl eq_refl) as [[Ht _] [Hnext _]].
  split; [exact Ht|].
  apply (Hnext Sample.disk_later "remember the milk"). reflexivity.
Defined.

(* ===================================================================== *)
(** ** [analyze_file] *)
(* ===================================================================== *)

Lemma dom_analyze_python content :
  dom (_analyze_python content) = {[ "imports"; "functions"; "classes" ]}.
Proof.
  unfold _analyze_python. rewrite !dom_insert_L, dom_singleton_L. set_solver.
Qed.

Lemma dom_analyze_c_cpp content :
  dom (_analyze_c_cpp content) = {[ "includes"; "functions"; "structs" ]}.
Proof.
  unfold _analyze_c_cpp. rewrite !dom_insert_L, dom_singleton_L. set_solver.
Qed.

Lemma dom_analyze_javascript content :
  dom (_analyze_javascript content) = {[ "imports"; "functions"; "classes" ]}.
Proof.
  unfold _analyze_javascript. rewrite !dom_insert_L, dom_singleton_L.
  set_solver.
Qed.

Lemma dom_base_fields (a b c d : value) :
  dom ({[ "path" := a; "type" := b; "lines" := c; "size" := d ]}
       : gmap string value) = base_fields.
Proof.
  unfold base_fields. rewrite !dom_insert_L, dom_singleton_L. set_solver.
Qed.

(** C7: [analyze_file] raises [FileNotFoundError] exactly when the path
    does not exist, whether or not [content] is supplied; when the path
    exists it returns a record. *)
Theorem analyze_file_not_found self fs file_path content :
  (fs_exists fs file_path = false
   /\ analyze_file self fs file_path content
      = (Raise (FileNotFoundError ("File does not exist: " +:+ file_path)),
         self, []))
  \/ (fs_exists fs file_path = true
      /\ exists info self' printed,
           analyze_file self fs file_path content = (Ok info, self', printed)).
Proof.
  unfold analyze_file. destruct (fs_exists fs file_path); simpl.
  - right. split; [reflexivity|].
    destruct content as [c|]; [|destruct (read_file _ _ _) as [[c s] o]];
      eauto.
  - left. split; reflexivity.
Qed.

(** C8: the record [analyze_file] returns holds the four base fields and
    nothing else when the extension is not one of the five recognized
    ones, and the three fields of the matching extractor in addition
    when it is. *)
Theorem analyze_file_fields self fs file_path content info self' printed :
  analyze_file self fs file_path content = (Ok info, self', printed) ->
  info !! "type" = Some (VStr (extension_of file_path))
  /\ dom info
     = if str_in (extension_of file_path) recognized
       then base_fields ∪ language_fields (extension_of file_path)
       else base_fields.
Proof.
  unfold analyze_file. destruct (negb _); [discriminate|].
  fold (extension_of file_path). set (ext := extension_of file_path).
  assert (Hc : exists c s o,
             match content with
             | Some c0 => (c0, self, [])
             | None => read_file self fs file_path
             end = (c, s, o)).
  { destruct content as [c|]; [|destruct (read_file _ _ _) as [[c s] o]];
      eauto. }
  destruct Hc as (c & s & o & ->). intros [= <- _ _].
  unfold language_fields, recognized, str_in, update. simpl.
  destruct (String.eqb ext "py") eqn:Hpy; simpl.
  { split; [now rewrite lookup_union_r|].
    now rewrite dom_union_L, dom_analyze_python, dom_base_fields,
      (union_comm_L base_fields). }
  destruct (String.eqb ext "js") eqn:Hjs; simpl.
  { destruct (String.eqb ext "c") eqn:Hcc;
      [apply String.eqb_eq in Hcc; rewrite Hcc in Hjs; discriminate|].
    destruct (String.eqb ext "cpp") eqn:Hcpp;
      [apply String.eqb_eq in Hcpp; rewrite Hcpp in Hjs; discriminate|].
    destruct (String.eqb ext "h") eqn:Hh;
      [apply String.eqb_eq in Hh; rewrite Hh in Hjs; discriminate|].
    simpl. split; [now rewrite lookup_union_r|].
    now rewrite dom_union_L, dom_analyze_javascript, dom_base_fields,
      (union_comm_L base_fields). }
  destruct (String.eqb ext "c" || (String.eqb ext "cpp"
            || (String.eqb ext "h" || false))) eqn:Hc; simpl.
  - split; [now rewrite lookup_union_r|].
    now rewrite dom_union_L, dom_analyze_c_cpp, dom_base_fields,
      (union_comm_L base_fields).
  - split; [reflexivity|]. apply dom_base_fields.
Qed.

Lemma analyze_file_fields_witness :
  let info : gmap string value :=
    {[ "path" := VStr "/proj/notes.xyz"; "type" := VStr "xyz";
       "lines" := VInt 1; "size" := VInt 11 ]} in
  info !! "type" = Some (VStr "xyz") /\ dom info = base_fields.
Proof.
  exact (analyze_file_fields Sample.analyzer Sample.disk "/proj/notes.xyz"
           (Some "to do later") _ Sample.analyzer [] eq_refl).
Defined.

(* ===================================================================== *)
(** ** The extractors on the inputs of the specification *)
(* ===================================================================== *)

(** C2: the JavaScript import pattern wants white space after the
    keyword, so a call [require('mod')] is not matched and its module
    path is not reported; with a blank before the parenthesis it is. *)
Theorem javascript_require_call_missed :
  _analyze_javascript "const m = require('mod');" !! "imports"
  = Some (VList [])
  /\ _analyze_javascript "const m = require ('mod');" !! "imports"
     = Some (VList ["mod"])
  /\ _analyze_javascript "import x from 'mod';" !! "imports"
     = Some (VList ["mod"]).
Proof. repeat split; vm_compute; reflexivity. Qed.

(* ===================================================================== *)
(** ** Facts about text and paths *)
(* ===================================================================== *)

Section TextFacts.
Implicit Types (a b c s : string) (x : ascii).

Lemma str_app_cons ch a b : String ch a +:+ b = String ch (a +:+ b).
Proof. reflexivity. Qed.

Lemma str_app_nil_l a : EmptyString +:+ a = a.
Proof. reflexivity. Qed.

Lemma str_app_assoc a b c : (a +:+ b) +:+ c = a +:+ (b +:+ c).
Proof.
  induction a as [|ch a IH]; [reflexivity|].
  rewrite !str_app_cons. now rewrite IH.
Qed.

Lemma str_app_nil_r a : a +:+ EmptyString = a.
Proof.
  induction a as [|ch a IH]; [reflexivity|].
  rewrite str_app_cons. now rewrite IH.
Qed.

Lemma str_length_app a b :
  String.length (a +:+ b) = (String.length a + String.length b)%nat.
Proof.
  induction a as [|ch a IH]; [reflexivity|].
  rewrite str_app_cons. simpl. now rewrite IH.
Qed.

Lemma rfind_bounds x s :
  (-1 <= Text.rfind x s < Z.of_nat (String.length s))%Z.
Proof.
  induction s as [|ch s IH]; simpl; [lia|].
  destruct (0 <=? Text.rfind x s)%Z eqn:H; [lia|].
  destruct (Ascii.eqb ch x); lia.
Qed.

Lemma rfind_absent x s :
  Text.contains x s = false -> Text.rfind x s = (-1)%Z.
Proof.
  induction s as [|ch s IH]; simpl; [reflexivity|].
  intros H. apply orb_false_elim in H as [Hch Hs].
  rewrite (IH Hs), Hch. reflexivity.
Qed.

Lemma rfind_app x a b :
  Text.rfind x (a +:+ b)
  = if (0 <=? Text.rfind x b)%Z
    then (Z.of_nat (String.length a) + Text.rfind x b)%Z
    else Text.rfind x a.
Proof.
  induction a as [|ch a IH].
  - rewrite str_app_nil_l.
    destruct (0 <=? Text.rfind x b)%Z eqn:H; simpl; [lia|].
    pose proof (rfind_bounds x b). apply Z.leb_gt in H. lia.
  - rewrite str_app_cons. cbn [Text.rfind]. rewrite IH.
    destruct (0 <=? Text.rfind x b)%Z eqn:H; [|reflexivity].
    apply Z.leb_le in H.
    replace (0 <=? Z.of_nat (String.length a) + Text.rfind x b)%Z with true
      by (symmetry; apply Z.leb_le; lia).
    cbn [String.length]. lia.
Qed.

Lemma get_app_r a b (i : nat) :
  String.get (String.length a + i) (a +:+ b) = String.get i b.
Proof.
  induction a as [|ch a IH]; [reflexivity|].
  rewrite str_app_cons. exact IH.
Qed.

Lemma drop_app a b (k : nat) :
  Text.drop (String.length a + k) (a +:+ b) = Text.drop k b.
Proof.
  induction a as [|ch a IH]; [reflexivity|].
  rewrite str_app_cons. exact IH.
Qed.

Lemma existsb_seq_shift (g h : nat -> bool) (d s len : nat) :
  (forall i, g (d + i)%nat = h i) ->
  existsb g (seq (d + s) len) = existsb h (seq s len).
Proof.
  intros Hgh. revert s. induction len as [|len IH]; intros s; simpl;
    [reflexivity|].
  rewrite Hgh. f_equal. replace (S (d + s)) with (d + S s)%nat by lia.
  apply IH.
Qed.

(** The extension of a path is the extension of its last component. *)
Lemma splitext_under pre f :
  Text.contains "/" f = false ->
  snd (PosixPath.splitext (pre +:+ "/" +:+ f)) = snd (PosixPath.splitext f).
Proof.
  intros Hf. unfold PosixPath.splitext.
  pose proof (rfind_absent _ _ Hf) as Hsepf.
  assert (Hsep : Text.rfind "/" (pre +:+ "/" +:+ f)
                 = Z.of_nat (String.length pre)).
  { rewrite rfind_app, str_app_cons, str_app_nil_l. cbn [Text.rfind].
    rewrite Hsepf. simpl. lia. }
  rewrite Hsep, Hsepf.
  pose proof (rfind_bounds "." f) as Hbf.
  pose proof (rfind_bounds "." pre) as Hbp.
  assert (Hdot : Text.rfind "." (pre +:+ "/" +:+ f)
                 = if (0 <=? Text.rfind "." f)%Z
                   then (Z.of_nat (String.length pre) + 1 + Text.rfind "." f)%Z
                   else Text.rfind "." pre).
  { rewrite rfind_app, str_app_cons, str_app_nil_l. cbn [Text.rfind].
    destruct (0 <=? Text.rfind "." f)%Z eqn:H; simpl.
    - apply Z.leb_le in H.
      replace (0 <=? Text.rfind "." f + 1)%Z with true
        by (symmetry; apply Z.leb_le; lia).
      lia.
    - reflexivity. }
  rewrite Hdot. destruct (0 <=? Text.rfind "." f)%Z eqn:H.
  - apply Z.leb_le in H.
    replace (Z.of_nat (String.length pre) <?
             Z.of_nat (String.length pre) + 1 + Text.rfind "." f)%Z
      with true by (symmetry; apply Z.ltb_lt; lia).
    replace (-1 <? Text.rfind "." f)%Z with true
      by (symmetry; apply Z.ltb_lt; lia).
    replace (Z.to_nat (Z.of_nat (String.length pre) + 1))
      with (String.length (pre +:+ "/") + 0)%nat
      by (rewrite str_length_app; simpl; lia).
    replace (Z.to_nat (Z.of_nat (String.length pre) + 1 + Text.rfind "." f
                       - (Z.of_nat (String.length pre) + 1)))
      with (Z.to_nat (Text.rfind "." f)) by lia.
    replace (Z.to_nat (Text.rfind "." f - (-1 + 1)))
      with (Z.to_nat (Text.rfind "." f)) by lia.
    replace (Z.to_nat (-1 + 1)) with 0%nat by lia.
    rewrite (existsb_seq_shift _
               (fun i => match Text.char_at f i with
                         | Some c => negb (Ascii.eqb c ".")
                         | None => true
                         end)).
    + simpl andb. destruct (existsb _ _); [|reflexivity]. simpl snd.
      replace (Z.to_nat (Z.of_nat (String.length pre) + 1
                         + Text.rfind "." f))
        with (String.length (pre +:+ "/") + Z.to_nat (Text.rfind "." f))%nat
        by (rewrite str_length_app; simpl; lia).
      rewrite <- (drop_app (pre +:+ "/") f). now rewrite str_app_assoc.
    + intros i. unfold Text.char_at.
      rewrite <- (get_app_r (pre +:+ "/") f i). now rewrite str_app_assoc.
  - apply Z.leb_gt in H.
    replace (Z.of_nat (String.length pre) <? Text.rfind "." pre)%Z
      with false by (symmetry; apply Z.ltb_ge; lia).
    replace (-1 <? Text.rfind "." f)%Z with false
      by (symmetry; apply Z.ltb_ge; lia).
    reflexivity.
Qed.

End TextFacts.

Section PathFacts.
Implicit Types (f d s : string) (comps cs : list string).

Lemma valid_name_nonempty s : valid_name s = true -> Text.nonempty s = true.
Proof. unfold valid_name. now intros [H _]%andb_prop. Qed.

Lemma valid_name_no_slash s :
  valid_name s = true -> Text.contains "/" s = false.
Proof. unfold valid_name. now intros [_ H%negb_true_iff]%andb_prop. Qed.

Lemma valid_name_start s :
  valid_name s = true -> PosixPath.starts_with_slash s = false.
Proof.
  intros H. apply valid_name_no_slash in H. destruct s as [|c s];
    [reflexivity|].
  simpl in H. apply orb_false_elim in H as [H _].
  apply Ascii.eqb_neq in H. unfold PosixPath.starts_with_slash.
  destruct (Ascii.eqb_spec c "/") as [->|Hne]; [congruence|].
  destruct c as [[] [] [] [] [] [] [] []]; try reflexivity. congruence.
Qed.

Lemma ends_with_slash_app a b :
  Text.nonempty b = true ->
  PosixPath.ends_with_slash (a +:+ b) = PosixPath.ends_with_slash b.
Proof.
  intros Hb. induction a as [|c a IH]; [reflexivity|].
  rewrite str_app_cons. cbn [PosixPath.ends_with_slash].
  destruct (a +:+ b) eqn:Hab; [|exact IH].
  destruct a; [|discriminate]. rewrite str_app_nil_l in Hab. now subst b.
Qed.

Lemma ends_with_slash_valid s :
  valid_name s = true -> PosixPath.ends_with_slash s = false.
Proof.
  intros H. apply valid_name_no_slash in H.
  induction s as [|c s IH]; [reflexivity|].
  simpl in H. apply orb_false_elim in H as [Hc Hs].
  cbn [PosixPath.ends_with_slash]. destruct s; [exact Hc|now apply IH].
Qed.

Lemma nonempty_app_r a b :
  Text.nonempty b = true -> Text.nonempty (a +:+ b) = true.
Proof. destruct a; [now rewrite str_app_nil_l|reflexivity]. Qed.

Lemma join_cons s comps :
  comps <> [] ->
  Text.join "/" (s :: comps) = s +:+ "/" +:+ Text.join "/" comps.
Proof. destruct comps; [congruence|reflexivity]. Qed.

Lemma join_snoc comps f :
  comps <> [] ->
  Text.join "/" (comps ++ [f]) = Text.join "/" comps +:+ "/" +:+ f.
Proof.
  induction comps as [|c comps IH]; [congruence|]. intros _.
  destruct comps as [|c' comps]; [reflexivity|].
  change ((c :: c' :: comps) ++ [f]) with (c :: ((c' :: comps) ++ [f])).
  rewrite (join_cons c ((c' :: comps) ++ [f])) by discriminate.
  rewrite IH by congruence.
  rewrite (join_cons c (c' :: comps)) by congruence.
  now rewrite !str_app_assoc.
Qed.

Lemma join_valid comps :
  Forall (fun s => valid_name s = true) comps -> comps <> [] ->
  Text.nonempty (Text.join "/" comps) = true
  /\ PosixPath.ends_with_slash (Text.join "/" comps) = false.
Proof.
  induction 1 as [|c comps Hc Hcomps IH]; [congruence|]. intros _.
  destruct comps as [|c' comps].
  - split; [now apply valid_name_nonempty|now apply ends_with_slash_valid].
  - destruct IH as [IH1 IH2]; [congruence|].
    rewrite join_cons by congruence. split.
    + apply nonempty_app_r. reflexivity.
    + rewrite ends_with_slash_app by reflexivity.
      change ("/" +:+ Text.join "/" (c' :: comps))
        with (String "/" (Text.join "/" (c' :: comps))).
      cbn [PosixPath.ends_with_slash].
      destruct (Text.join "/" (c' :: comps)); [discriminate|exact IH2].
Qed.

(** The path recorded for a file is the names from the project down to
    it, joined by slashes; only a directory called [.] is left out. *)
Lemma file_path_of_join comps f :
  Forall (fun s => valid_name s = true) comps -> valid_name f = true ->
  file_path_of (PosixPath.relpath comps) f
  = Text.join "/" ((if String.eqb (PosixPath.relpath comps) "." then []
                    else comps) ++ [f]).
Proof.
  intros Hcomps Hf. unfold file_path_of.
  destruct (String.eqb (PosixPath.relpath comps) ".") eqn:Hdot;
    [reflexivity|].
  destruct comps as [|c comps]; [discriminate|].
  unfold PosixPath.relpath in *. unfold PosixPath.join.
  rewrite (valid_name_start _ Hf).
  destruct (join_valid (c :: comps) Hcomps) as [-> ->]; [congruence|].
  simpl negb. simpl orb. cbv iota. now rewrite join_snoc by congruence.
Qed.

(** A recorded path has the extension of the file's own name. *)
Lemma file_path_of_ext comps f :
  Forall (fun s => valid_name s = true) comps -> valid_name f = true ->
  snd (PosixPath.splitext (file_path_of (PosixPath.relpath comps) f))
  = snd (PosixPath.splitext f).
Proof.
  intros Hcomps Hf. rewrite file_path_of_join by assumption.
  destruct (String.eqb _ _); [reflexivity|].
  destruct comps as [|c comps]; [reflexivity|].
  rewrite join_snoc by congruence.
  apply splitext_under. now apply valid_name_no_slash.
Qed.

End PathFacts.

(* ===================================================================== *)
(** ** The histogram of extensions *)
(* ===================================================================== *)

Section Histogram.
Variable fnmatch : string -> string -> bool.
Variable self : ProjectAnalyzer.

Lemma total_empty : total ∅ = 0%Z.
Proof. apply map_fold_empty. Qed.

Lemma total_insert_fresh (m : gmap string Z) k v :
  m !! k = None -> total (<[k := v]> m) = (v + total m)%Z.
Proof.
  intros H. unfold total. apply map_fold_insert_L; [|exact H].
  intros. lia.
Qed.

(** Line 57 adds one to the sum. *)
Lemma total_bump (m : gmap string Z) k :
  total (<[k := (default 0 (m !! k) + 1)%Z]> m) = (total m + 1)%Z.
Proof.
  destruct (m !! k) as [v|] eqn:Hk; simpl.
  - rewrite <- (insert_delete_eq m).
    rewrite total_insert_fresh by apply lookup_delete_eq.
    rewrite <- (insert_delete_id m k v Hk) at 2.
    rewrite total_insert_fresh by apply lookup_delete_eq. lia.
  - rewrite total_insert_fresh by exact Hk. lia.
Qed.

Lemma visit_file_histogram comps info f :
  Forall (fun s => valid_name s = true) comps -> valid_name f = true ->
  histogram_agrees info ->
  histogram_agrees (visit_file (PosixPath.relpath comps) info f).
Proof.
  intros Hcomps Hf [Hempty Htotal]. unfold histogram_agrees, visit_file.
  cbn [file_types files]. fold (file_path_of (PosixPath.relpath comps) f).
  rewrite List.filter_app, length_app. cbn [List.filter].
  unfold has_extension at 2. rewrite file_path_of_ext by assumption.
  destruct (Text.lower (snd (PosixPath.splitext f))) as [|c ext] eqn:Hext;
    cbn [Text.nonempty].
  - split; [exact Hempty|]. rewrite Htotal. simpl. lia.
  - split; [now rewrite lookup_insert_ne|].
    rewrite total_bump, Htotal. simpl. lia.
Qed.

Lemma visit_histogram comps fnames info :
  Forall (fun s => valid_name s = true) comps ->
  forallb valid_name fnames = true ->
  histogram_agrees info -> histogram_agrees (visit comps fnames info).
Proof.
  intros Hcomps Hfiles Hinfo. unfold visit.
  match goal with
  | |- context [fold_left _ _ ?i] =>
      assert (Hstart : histogram_agrees i)
        by (destruct (negb _); exact Hinfo);
      generalize dependent i
  end.
  clear Hinfo info. induction fnames as [|f l IH]; intros info Hinfo;
    [exact Hinfo|].
  simpl in Hfiles. apply andb_prop in Hfiles as [Hf Hl].
  simpl. apply IH; [exact Hl|]. now apply visit_file_histogram.
Qed.

(** C1, as amended: a file whose name has no extension is recorded in
    [files] and counted nowhere, so [file_types] has no empty key and its
    counts add up to the number of recorded files that have an
    extension, which is at most [file_count]. *)
Theorem analyze_project_file_types fs project_path info :
  analyze_project fnmatch self fs project_path = Ok info ->
  match fs_walk fs project_path with
  | Some t => valid_tree t = true
  | None => True
  end ->
  file_types info !! EmptyString = None
  /\ total (file_types info)
     = Z.of_nat (length (List.filter has_extension (files info)))
  /\ (total (file_types info) <= Z.of_nat (length (files info)))%Z.
Proof.
  unfold analyze_project. destruct (negb _); [discriminate|].
  intros [= <-] Hvalid.
  assert (H : histogram_agrees
                match fs_walk fs project_path with
                | Some t =>
                    walk fnmatch self [] t
                      {| path := project_path; files := [];
                         file_count := 0; directories := [];
                         directory_count := 0; file_types := ∅ |}
                | None =>
                    {| path := project_path; files := [];
                       file_count := 0; directories := [];
                       directory_count := 0; file_types := ∅ |}
                end).
  { destruct (fs_walk fs project_path) as [t|].
    - apply (walk_invariant_valid fnmatch self histogram_agrees
               (Forall (fun s => valid_name s = true))).
      + intros. now apply visit_histogram.
      + intros comps d Hc Hd _. apply Forall_app. split; [exact Hc|].
        now constructor.
      + exact Hvalid.
      + constructor.
      + split; [apply lookup_empty|apply total_empty].
    - split; [apply lookup_empty|apply total_empty]. }
  destruct H as [H1 H2]. repeat split; [exact H1|exact H2|].
  rewrite H2. apply inj_le. apply List.filter_length_le.
Qed.

End Histogram.

Lemma analyze_project_file_types_witness :
  exists info,
    analyze_project Sample.fnmatch_glob Sample.analyzer Sample.disk "/proj"
    = Ok info
    /\ file_types info !! EmptyString = None
    /\ total (file_types info)
       = Z.of_nat (length (List.filter has_extension (files info))).
Proof.
  eexists. split; [reflexivity|].
  destruct (analyze_project_file_types Sample.fnmatch_glob Sample.analyzer
              Sample.disk "/proj" _ eq_refl eq_refl) as (H1 & H2 & _).
  split; [exact H1|exact H2].
Defined.

(** C1 as stated fails: [Makefile] has no extension; it is recorded in
    [files], [file_types] stays empty, and the counts add up to 0, not
    to 1. *)
Lemma file_types_skip_no_extension :
  exists info,
    analyze_project Sample.fnmatch_glob Sample.analyzer makefile_only "/work"
    = Ok info
    /\ files info = ["Makefile"]
    /\ file_types info = ∅
    /\ file_types info !! EmptyString = None
    /\ total (file_types info) = 0%Z
    /\ total (file_types info) <> Z.of_nat (length (files info)).
Proof.
  eexists. split; [reflexivity|]. repeat split; try reflexivity.
  vm_compute. discriminate.
Qed.

(* ===================================================================== *)
(** ** Pruning of ignored directories *)
(* ===================================================================== *)

Section JoinInjective.
Implicit Types (x y r : string) (l : list string).

Lemma contains_app c x y :
  Text.contains c (x +:+ y) = Text.contains c x || Text.contains c y.
Proof.
  induction x as [|a x IH]; [reflexivity|].
  rewrite str_app_cons. simpl. rewrite IH. now rewrite orb_assoc.
Qed.

Lemma cut_at_slash x y r1 r2 :
  Text.contains "/" x = false -> Text.contains "/" y = false ->
  x +:+ "/" +:+ r1 = y +:+ "/" +:+ r2 -> x = y /\ r1 = r2.
Proof.
  revert y. induction x as [|a x IH]; intros [|b y] Hx Hy H.
  - rewrite !str_app_nil_l in H. now injection H.
  - rewrite str_app_nil_l, str_app_cons in H. injection H as <- _.
    simpl in Hy. discriminate.
  - rewrite str_app_nil_l, str_app_cons in H. injection H as -> _.
    simpl in Hx. discriminate.
  - rewrite !str_app_cons in H. injection H as -> H.
    simpl in Hx, Hy. apply orb_false_elim in Hx as [_ Hx].
    apply orb_false_elim in Hy as [_ Hy].
    destruct (IH y Hx Hy H) as [-> ->]. now split.
Qed.

Lemma no_slash_not_joined x y r :
  Text.contains "/" x = false -> x <> y +:+ "/" +:+ r.
Proof.
  intros Hx ->. rewrite contains_app in Hx.
  apply orb_false_elim in Hx as [_ Hx]. discriminate.
Qed.

(** Joining valid names by slashes loses nothing. *)
Lemma join_inj l1 l2 :
  Forall (fun s => valid_name s = true) l1 ->
  Forall (fun s => valid_name s = true) l2 ->
  Text.join "/" l1 = Text.join "/" l2 -> l1 = l2.
Proof.
  intros H1. revert l2.
  induction H1 as [|x l1 Hx Hl1 IH]; intros l2 H2 Heq.
  - destruct H2 as [|y l2 Hy Hl2]; [reflexivity|].
    apply valid_name_nonempty in Hy.
    destruct l2; simpl in Heq; destruct y; discriminate.
  - destruct H2 as [|y l2 Hy Hl2].
    { apply valid_name_nonempty in Hx.
      destruct l1; simpl in Heq; destruct x; discriminate. }
    pose proof (valid_name_no_slash _ Hx) as Hxs.
    pose proof (valid_name_no_slash _ Hy) as Hys.
    destruct l1 as [|x' l1], l2 as [|y' l2].
    + simpl in Heq. now subst.
    + rewrite (join_cons y (y' :: l2)) in Heq by congruence.
      simpl in Heq. now apply no_slash_not_joined in Heq.
    + rewrite (join_cons x (x' :: l1)) in Heq by congruence.
      simpl in Heq. symmetry in Heq. now apply no_slash_not_joined in Heq.
    + rewrite (join_cons x (x' :: l1)), (join_cons y (y' :: l2)) in Heq
        by congruence.
      apply cut_at_slash in Heq as [-> Heq]; [|assumption..].
      f_equal. now apply IH.
Qed.

End JoinInjective.

(** The names of an entry of a valid tree are valid. *)
Lemma entry_paths_valid t :
  valid_tree t = true ->
  forall cs, In cs (entry_paths t) ->
             Forall (fun s => valid_name s = true) cs.
Proof.
  induction t as [fnames subdirs IH] using tree_induction.
  intros Hvalid cs Hin. simpl in Hvalid, Hin.
  apply andb_prop in Hvalid as [Hfiles Hsub].
  apply in_app_or in Hin as [Hin|Hin].
  - apply in_map_iff in Hin as (f & <- & Hf).
    rewrite forallb_forall in Hfiles. constructor; [auto|constructor].
  - clear Hfiles. induction IH as [|[d sub] l Hd Hl IHl]; [contradiction|].
    apply andb_prop in Hsub as [Hsub Hl'].
    apply andb_prop in Hsub as [Hname Ht'].
    destruct Hin as [<-|Hin]; [constructor; [exact Hname|constructor]|].
    apply in_app_or in Hin as [Hin|Hin]; [|now apply IHl].
    destruct sub as [t'|]; [|contradiction].
    apply in_map_iff in Hin as (cs' & <- & Hcs').
    constructor; [exact Hname|]. now apply Hd.
Qed.

Section Pruning.
Variable fnmatch : string -> string -> bool.
Variable self : ProjectAnalyzer.

Local Abbreviation ignored := (_is_ignored_dir fnmatch self).
Local Abbreviation passable := (passable_for ignored).
Local Abbreviation reached_only := (reached_only_for ignored).

Lemma passable_valid cs :
  Forall passable cs -> Forall (fun s => valid_name s = true) cs.
Proof.
  induction 1 as [|s cs [Hs _] _ IH]; constructor; assumption.
Qed.

Lemma visit_file_reached comps info f :
  Forall passable comps -> valid_name f = true ->
  reached_only info ->
  reached_only (visit_file (PosixPath.relpath comps) info f).
Proof.
  intros Hcomps Hf [Hfiles Hdirs]. split; cbn [visit_file files directories];
    [|exact Hdirs].
  intros p [Hp|Hp]%in_app_or; [now apply Hfiles|].
  destruct Hp as [<-|[]]. fold (file_path_of (PosixPath.relpath comps) f).
  rewrite file_path_of_join by (try apply passable_valid; assumption).
  destruct (String.eqb _ _).
  - exists [], f. repeat split; [constructor|exact Hf].
  - exists comps, f. repeat split; assumption.
Qed.

Lemma visit_reached comps fnames info :
  Forall passable comps -> forallb valid_name fnames = true ->
  reached_only info -> reached_only (visit comps fnames info).
Proof.
  intros Hcomps Hfiles Hinfo. unfold visit.
  match goal with
  | |- context [fold_left _ _ ?i] =>
      assert (Hstart : reached_only i); [|generalize dependent i]
  end.
  { destruct (negb _) eqn:Hdot; [|exact Hinfo].
    destruct Hinfo as [Hf Hd]. split; [exact Hf|]. cbn [directories].
    intros p [Hp|Hp]%in_app_or; [now apply Hd|].
    destruct Hp as [<-|[]]. exists comps. split; [|exact Hcomps].
    destruct comps; [discriminate|reflexivity]. }
  clear Hinfo info. induction fnames as [|f l IH]; intros info Hinfo;
    [exact Hinfo|].
  simpl in Hfiles. apply andb_prop in Hfiles as [Hf Hl].
  simpl. apply IH; [exact Hl|]. now apply visit_file_reached.
Qed.

Lemma walk_reached t info :
  valid_tree t = true -> reached_only info ->
  reached_only (walk fnmatch self [] t info).
Proof.
  intros Hvalid Hinfo.
  apply (walk_invariant_valid fnmatch self reached_only (Forall passable));
    auto.
  - intros. now apply visit_reached.
  - intros comps d Hc Hd Hign. apply Forall_app. split; [exact Hc|].
    constructor; [now split|constructor].
Qed.

Lemma not_passable_below cs :
  Forall passable cs -> existsb ignored cs = false.
Proof.
  induction 1 as [|s cs [_ Hs] _ IH]; [reflexivity|].
  simpl. now rewrite Hs, IH.
Qed.

Lemma existsb_removelast (cs : list string) :
  existsb ignored (removelast cs) = true -> existsb ignored cs = true.
Proof.
  induction cs as [|c cs IH]; [easy|]. destruct cs as [|c' cs]; [easy|].
  change (removelast (c :: c' :: cs)) with (c :: removelast (c' :: cs)).
  change (existsb ignored (c :: removelast (c' :: cs)))
    with (ignored c || existsb ignored (removelast (c' :: cs))).
  change (existsb ignored (c :: c' :: cs))
    with (ignored c || existsb ignored (c' :: cs)).
  intros [->|H]%orb_prop; [reflexivity|].
  rewrite (IH H). apply orb_true_r.
Qed.

(** C3: an entry of the tree below a directory whose name matches an
    ignore pattern, however deep, is in neither [files] nor
    [directories]. *)
Theorem analyze_project_prunes fs project_path info t cs :
  analyze_project fnmatch self fs project_path = Ok info ->
  fs_walk fs project_path = Some t ->
  valid_tree t = true ->
  In cs (entry_paths t) ->
  existsb ignored (removelast cs) = true ->
  ~ In (Text.join "/" cs) (files info)
  /\ ~ In (Text.join "/" cs) (directories info).
Proof.
  unfold analyze_project. destruct (negb _); [discriminate|].
  intros [= <-] -> Hvalid Hin Hign.
  pose proof (entry_paths_valid t Hvalid cs Hin) as Hcs.
  destruct (walk_reached t
              {| path := project_path; files := []; file_count := 0;
                 directories := []; directory_count := 0;
                 file_types := ∅ |} Hvalid) as [Hfiles Hdirs].
  { split; intros p []. }
  split; intros Hp.
  - apply Hfiles in Hp as (cs' & f & Heq & Hcs' & Hf).
    apply join_inj in Heq; [|exact Hcs|].
    + subst cs. rewrite removelast_last in Hign.
      now rewrite (not_passable_below cs' Hcs') in Hign.
    + apply Forall_app. split; [now apply passable_valid|].
      now constructor.
  - apply Hdirs in Hp as (cs' & Heq & Hcs').
    apply join_inj in Heq; [|exact Hcs|now apply passable_valid].
    subst cs'. apply existsb_removelast in Hign.
    now rewrite (not_passable_below cs Hcs') in Hign.
Qed.

End Pruning.

Lemma analyze_project_prunes_witness :
  exists info,
    analyze_project Sample.fnmatch_glob Sample.analyzer Sample.disk "/proj"
    = Ok info
    /\ ~ In "src/node_modules/deep/util.c" (files info)
    /\ ~ In "src/node_modules/deep/util.c" (directories info).
Proof.
  eexists. split; [reflexivity|].
  apply (analyze_project_prunes Sample.fnmatch_glob Sample.analyzer
           Sample.disk "/proj" _ Sample.project
           ["src"; "node_modules"; "deep"; "util.c"]);
    try reflexivity.
  vm_compute. tauto.
Defined.

(* ===================================================================== *)
(** ** Facts about the matcher *)
(* ===================================================================== *)

Section MatcherMovesForward.

Lemma forward_refl c : forward c c.
Proof. split; lia. Qed.

Lemma forward_trans c1 c2 c3 : forward c1 c2 -> forward c2 c3 -> forward c1 c3.
Proof. intros [? ?] [? ?]. split; lia. Qed.

Lemma forward_advance c : forward c (advance c).
Proof.
  unfold advance. destruct (cur_rest c) eqn:H; [apply forward_refl|].
  split; simpl; rewrite ?H; simpl; lia.
Qed.

Lemma eat_forward s : forall c c', eat s c = Some c' -> forward c c'.
Proof.
  induction s as [|x s IH]; intros c c' H; simpl in H.
  - injection H as <-. apply forward_refl.
  - destruct (cur_rest c) as [|a rest] eqn:Hc; [discriminate|].
    destruct (Ascii.eqb a x); [|discriminate].
    apply (forward_trans _ (advance c)); [apply forward_advance|now apply IH].
Qed.

Lemma star_loop_result {R} body greedy (k : cursor -> groups -> option R) :
  from_continuation body ->
  forall fuel c g x,
    star_loop body greedy k fuel c g = Some x ->
    exists c' g', forward c c' /\ k c' g' = Some x.
Proof.
  intros Hbody fuel.
  induction fuel as [|fuel IH]; intros c g x Hx.
  - simpl in Hx. destruct greedy; simpl in Hx.
    + exists c, g. split; [apply forward_refl|exact Hx].
    + destruct (k c g) eqn:Hk; simpl in Hx; [|discriminate].
      exists c, g. split; [apply forward_refl|congruence].
  - simpl in Hx.
    assert (Hagain : forall y,
               body c g (fun c' g' =>
                 if Nat.ltb (cur_pos c) (cur_pos c')
                 then star_loop body greedy k fuel c' g' else None)
               = Some y ->
               exists c' g', forward c c' /\ k c' g' = Some y).
    { intros y Hy. apply Hbody in Hy as (c1 & g1 & Hf1 & Hy).
      destruct (Nat.ltb _ _); [|discriminate].
      apply IH in Hy as (c2 & g2 & Hf2 & Hy).
      exists c2, g2. split; [now apply (forward_trans _ c1)|exact Hy]. }
    destruct greedy; unfold orelse in Hx.
    + destruct (body c g _) eqn:Hb.
      * injection Hx as <-. now apply Hagain.
      * exists c, g. split; [apply forward_refl|exact Hx].
    + destruct (k c g) eqn:Hk.
      * exists c, g. split; [apply forward_refl|congruence].
      * now apply Hagain.
Qed.

Lemma run_result {R} (r : regex) : from_continuation (@run R r).
Proof.
  induction r as [|cl|s|r1 IH1 r2 IH2|r1 IH1 r2 IH2|greedy r1 IH1|n r1 IH1| |];
    intros c g k x Hx; simpl in Hx.
  - exists c, g. split; [apply forward_refl|exact Hx].
  - destruct (cur_rest c) as [|a rest] eqn:Hc; [discriminate|].
    destruct (cls_match cl a); [|discriminate].
    exists (advance c), g. split; [apply forward_advance|exact Hx].
  - destruct (eat s c) as [c'|] eqn:He; [|discriminate].
    exists c', g. split; [now apply (eat_forward s)|exact Hx].
  - apply IH1 in Hx as (c1 & g1 & Hf1 & Hx).
    apply IH2 in Hx as (c2 & g2 & Hf2 & Hx).
    exists c2, g2. split; [now apply (forward_trans _ c1)|exact Hx].
  - unfold orelse in Hx. destruct (run r1 c g k) eqn:H1.
    + injection Hx as <-. now apply (IH1 c g k).
    + now apply (IH2 c g k).
  - now apply (star_loop_result (run r1) greedy k IH1) in Hx.
  - apply IH1 in Hx as (c1 & g1 & Hf1 & Hx). eauto.
  - destruct (at_bol c); [|discriminate].
    exists c, g. split; [apply forward_refl|exact Hx].
  - destruct (at_eol c); [|discriminate].
    exists c, g. split; [apply forward_refl|exact Hx].
Qed.

(** A match ends at or after the cursor it started from. *)
Lemma match_at_forward r c m : match_at r c = Some m -> forward c (m_end m).
Proof.
  unfold match_at. intros H.
  apply run_result in H as (c' & g' & Hf & [= <-]). exact Hf.
Qed.

(** [finditer] never runs out of fuel: any fuel above the length of the
    text left gives the same matches. *)
Lemma scan_fuel r n :
  forall c f1 f2,
    String.length (cur_rest c) <= n ->
    String.length (cur_rest c) < f1 -> String.length (cur_rest c) < f2 ->
    scan f1 r c = scan f2 r c.
Proof.
  induction n as [|n IH]; intros c [|f1] [|f2] Hn H1 H2; try lia; simpl.
  - destruct (cur_rest c) eqn:Hc; [|simpl in Hn; lia].
    destruct (match_at r c) as [m|] eqn:Hm; [|reflexivity].
    apply match_at_forward in Hm as [Hpos Hlen]. rewrite Hc in Hlen.
    simpl in Hlen. replace (Nat.ltb (cur_pos c) (cur_pos (m_end m)))
      with false by (symmetry; apply Nat.ltb_ge; lia).
    reflexivity.
  - assert (Hadv : match cur_rest c with
                   | EmptyString => []
                   | String _ _ => scan f1 r (advance c)
                   end
                   = match cur_rest c with
                     | EmptyString => []
                     | String _ _ => scan f2 r (advance c)
                     end).
    { destruct (cur_rest c) as [|a rest] eqn:Hc; [reflexivity|].
      apply IH; unfold advance; rewrite Hc; simpl in *; lia. }
    destruct (match_at r c) as [m|] eqn:Hm; [|exact Hadv].
    f_equal. destruct (Nat.ltb _ _) eqn:Hlt; [|exact Hadv].
    apply Nat.ltb_lt in Hlt. apply match_at_forward in Hm as [Hpos Hlen].
    apply IH; lia.
Qed.

Lemma finditer_fuel r s fuel :
  String.length s < fuel -> scan fuel r (start s) = finditer r s.
Proof.
  intros H. unfold finditer.
  apply (scan_fuel r (String.length s)); simpl; lia.
Qed.

End MatcherMovesForward.

Section MatcherSteps.
Context {R : Type}.
Implicit Types (c : cursor) (g : groups) (k : cursor -> groups -> option R)
  (u s rest : string) (x : R).

Lemma advance_rest c a rest :
  cur_rest c = String a rest -> cur_rest (advance c) = rest.
Proof. intros H. unfold advance. now rewrite H. Qed.

Lemma advance_pos c a rest :
  cur_rest c = String a rest -> cur_pos (advance c) = S (cur_pos c).
Proof. intros H. unfold advance. now rewrite H. Qed.

Lemma after_rest u : forall c rest,
  cur_rest c = u +:+ rest -> cur_rest (after u c) = rest.
Proof.
  induction u as [|a u IH]; intros c rest H; [exact H|].
  rewrite str_app_cons in H. simpl. apply IH.
  now apply (advance_rest c a).
Qed.

Lemma after_pos u : forall c rest,
  cur_rest c = u +:+ rest ->
  cur_pos (after u c) = (cur_pos c + String.length u)%nat.
Proof.
  induction u as [|a u IH]; intros c rest H; simpl; [lia|].
  rewrite str_app_cons in H.
  rewrite (IH (advance c) rest) by now apply (advance_rest c a).
  rewrite (advance_pos c a _ H). lia.
Qed.

Lemma after_app u v c : after (u +:+ v) c = after v (after u c).
Proof.
  revert c. induction u as [|a u IH]; intros c; [reflexivity|].
  rewrite str_app_cons. simpl. apply IH.
Qed.

Lemma take_app u rest : Text.take (String.length u) (u +:+ rest) = u.
Proof.
  induction u as [|a u IH]; [now destruct rest|].
  rewrite str_app_cons. simpl. now rewrite IH.
Qed.

Lemma run_seq r1 r2 c g k :
  run (Seq r1 r2) c g k = run r1 c g (fun c' g' => run r2 c' g' k).
Proof. reflexivity. Qed.

Lemma run_eps c g k : run Eps c g k = k c g.
Proof. reflexivity. Qed.

Lemma run_alt_l r1 r2 c g k x :
  run r1 c g k = Some x -> run (Alt r1 r2) c g k = Some x.
Proof. intros H. simpl. now rewrite H. Qed.

Lemma run_alt_r r1 r2 c g k :
  run r1 c g k = None -> run (Alt r1 r2) c g k = run r2 c g k.
Proof. intros H. simpl. now rewrite H. Qed.

Lemma run_chr cl c g k a rest :
  cur_rest c = String a rest -> cls_match cl a = true ->
  run (Chr cl) c g k = k (advance c) g.
Proof. intros Hc Ha. simpl. now rewrite Hc, Ha. Qed.

Lemma run_chr_stops cl c g k :
  stops (cls_match cl) (cur_rest c) = true -> run (Chr cl) c g k = None.
Proof.
  intros H. simpl. destruct (cur_rest c) as [|a rest]; [reflexivity|].
  simpl in H. apply negb_true_iff in H. now rewrite H.
Qed.

Lemma eat_after s : forall c rest,
  cur_rest c = s +:+ rest -> eat s c = Some (after s c).
Proof.
  induction s as [|a s IH]; intros c rest H; [reflexivity|].
  rewrite str_app_cons in H. simpl. rewrite H, Ascii.eqb_refl.
  apply (IH _ rest). now apply (advance_rest c a).
Qed.

Lemma run_str s c g k rest :
  cur_rest c = s +:+ rest -> run (Str s) c g k = k (after s c) g.
Proof. intros H. simpl. now rewrite (eat_after s c rest H). Qed.

(** A literal does not match a text that goes on with another
    character. *)
Lemma run_str_mismatch a s c g k b rest :
  cur_rest c = String b rest -> Ascii.eqb b a = false ->
  run (Str (String a s)) c g k = None.
Proof. intros Hc Hb. simpl. now rewrite Hc, Hb. Qed.

Lemma run_str_end a s c g k :
  cur_rest c = EmptyString -> run (Str (String a s)) c g k = None.
Proof. intros Hc. simpl. now rewrite Hc. Qed.

Lemma star_loop_greedy_O body k c g :
  star_loop body true k O c g = k c g.
Proof. reflexivity. Qed.

Lemma star_loop_greedy_S body k fuel c g :
  star_loop body true k (S fuel) c g
  = orelse (body c g (fun c' g' =>
              if Nat.ltb (cur_pos c) (cur_pos c')
              then star_loop body true k fuel c' g' else None))
           (fun _ => k c g).
Proof. reflexivity. Qed.

(** A greedy repetition of a class first takes the whole run of
    characters of the class; when what follows matches there, that is
    the match. *)
Lemma star_loop_greedy cl u : forall fuel c rest g k x,
  cur_rest c = u +:+ rest ->
  all_in (cls_match cl) u = true -> stops (cls_match cl) rest = true ->
  String.length u <= fuel ->
  k (after u c) g = Some x ->
  star_loop (run (Chr cl)) true k fuel c g = Some x.
Proof.
  induction u as [|a u IH]; intros fuel c rest g k x Hc Hu Hrest Hfuel Hk.
  - rewrite str_app_nil_l in Hc. simpl in Hk.
    destruct fuel as [|fuel]; [exact Hk|].
    rewrite star_loop_greedy_S, run_chr_stops; [exact Hk|].
    now rewrite Hc.
  - rewrite str_app_cons in Hc. simpl in Hu, Hfuel, Hk.
    apply andb_prop in Hu as [Ha Hu].
    destruct fuel as [|fuel]; [lia|].
    rewrite star_loop_greedy_S, (run_chr cl c g _ a _ Hc Ha).
    rewrite (advance_pos c a _ Hc).
    replace (Nat.ltb (cur_pos c) (S (cur_pos c))) with true
      by (symmetry; apply Nat.ltb_lt; lia).
    rewrite (IH fuel (advance c) rest g k x); auto; [|lia].
    now apply (advance_rest c a).
Qed.

Lemma run_star_greedy cl u c rest g k x :
  cur_rest c = u +:+ rest ->
  all_in (cls_match cl) u = true -> stops (cls_match cl) rest = true ->
  k (after u c) g = Some x ->
  run (Star true (Chr cl)) c g k = Some x.
Proof.
  intros Hc Hu Hrest Hk.
  change (run (Star true (Chr cl)) c g k)
    with (star_loop (run (Chr cl)) true k (String.length (cur_rest c)) c g).
  apply (star_loop_greedy cl u _ c rest); auto.
  rewrite Hc, str_length_app. lia.
Qed.

Lemma run_plus_greedy cl u c rest g k x :
  cur_rest c = u +:+ rest -> Text.nonempty u = true ->
  all_in (cls_match cl) u = true -> stops (cls_match cl) rest = true ->
  k (after u c) g = Some x ->
  run (Plus true (Chr cl)) c g k = Some x.
Proof.
  intros Hc Hne Hu Hrest Hk. destruct u as [|a u]; [discriminate|].
  rewrite str_app_cons in Hc. simpl in Hu. apply andb_prop in Hu as [Ha Hu].
  unfold Plus. rewrite run_seq, (run_chr cl c g _ a _ Hc Ha).
  apply (run_star_greedy cl u _ rest); auto.
  now apply (advance_rest c a).
Qed.

(** The same inside a capturing group: the group holds the run. *)
Lemma run_group_plus n cl u c rest g k x :
  cur_rest c = u +:+ rest -> Text.nonempty u = true ->
  all_in (cls_match cl) u = true -> stops (cls_match cl) rest = true ->
  k (after u c) (<[n := u]> g) = Some x ->
  run (Group n (Plus true (Chr cl))) c g k = Some x.
Proof.
  intros Hc Hne Hu Hrest Hk. cbn [run].
  change (run (Chr cl ⋅ Star true (Chr cl))%re)
    with (run (Plus true (Chr cl))).
  apply (run_plus_greedy cl u c rest); auto.
  rewrite (after_pos u c rest Hc), Hc.
  replace (cur_pos c + String.length u - cur_pos c)%nat
    with (String.length u) by lia.
  now rewrite take_app.
Qed.

End MatcherSteps.

Section ScanFacts.

Lemma scan_at_end r c fuel :
  cur_rest c = EmptyString -> match_at r c = None -> scan fuel r c = [].
Proof.
  intros Hc Hm. destruct fuel as [|fuel]; [reflexivity|].
  simpl. now rewrite Hm, Hc.
Qed.

Lemma scan_match r c fuel m :
  match_at r c = Some m -> cur_pos c < cur_pos (m_end m) ->
  scan (S fuel) r c = m :: scan fuel r (m_end m).
Proof.
  intros Hm Hlt. simpl. rewrite Hm.
  now replace (Nat.ltb (cur_pos c) (cur_pos (m_end m))) with true
    by (symmetry; apply Nat.ltb_lt; lia).
Qed.

Lemma scan_skip r c fuel a rest :
  match_at r c = None -> cur_rest c = String a rest ->
  scan (S fuel) r c = scan fuel r (advance c).
Proof. intros Hm Hc. simpl. now rewrite Hm, Hc. Qed.

Lemma fold_left_snoc {A B} (f : B -> A) (l : list B) (acc : list A) :
  fold_left (fun acc x => acc ++ [f x]) l acc = acc ++ map f l.
Proof.
  revert acc. induction l as [|x l IH]; intros acc; simpl.
  - now rewrite app_nil_r.
  - rewrite IH. now rewrite <- app_assoc.
Qed.

Lemma word_not_space a : Text.is_word a = true -> Text.is_space a = false.
Proof.
  destruct a as [[] [] [] [] [] [] [] []]; vm_compute; congruence.
Qed.

Lemma stops_space_word w rest :
  Text.nonempty w = true -> all_in Text.is_word w = true ->
  stops (cls_match Space) (w +:+ rest) = true.
Proof.
  destruct w as [|a w]; [discriminate|]. intros _ H.
  simpl in H. apply andb_prop in H as [Ha _]. rewrite str_app_cons.
  simpl. now rewrite (word_not_space a Ha).
Qed.

End ScanFacts.

(* ===================================================================== *)
(** ** The C extractor on one declaration *)
(* ===================================================================== *)

Section CFunctions.

Lemma c_function_match w1 w2 params c :
  is_word_text w1 = true -> is_word_text w2 = true ->
  is_params params = true ->
  cur_rest c = declaration w1 w2 params ->
  exists m,
    match_at C.function_pattern c = Some m
    /\ m_groups m = <[2 := w2]> (<[1 := w1]> ∅)
    /\ cur_rest (m_end m) = EmptyString
    /\ cur_pos c < cur_pos (m_end m).
Proof.
  intros [Hn1 Hw1]%andb_prop [Hn2 Hw2]%andb_prop Hp Hc.
  unfold declaration in Hc.
  set (c1 := after w1 c). set (c2 := after " " c1). set (c3 := after w2 c2).
  set (c4 := after "(" c3). set (c5 := after params c4).
  set (c6 := after ")" c5). set (c7 := after " " c6).
  set (c8 := after "{" c7).
  pose proof (after_rest w1 c _ Hc) as H1. fold c1 in H1.
  pose proof (after_rest " " c1 _ H1) as H2. fold c2 in H2.
  pose proof (after_rest w2 c2 _ H2) as H3. fold c3 in H3.
  pose proof (after_rest "(" c3 _ H3) as H4. fold c4 in H4.
  pose proof (after_rest params c4 _ H4) as H5. fold c5 in H5.
  change (") {") with (")" +:+ " " +:+ "{" +:+ EmptyString) in H5.
  pose proof (after_rest ")" c5 _ H5) as H6. fold c6 in H6.
  pose proof (after_rest " " c6 _ H6) as H7. fold c7 in H7.
  pose proof (after_rest "{" c7 _ H7) as H8. fold c8 in H8.
  exists (Match c8 (<[2 := w2]> (<[1 := w1]> ∅))).
  split; [|split; [reflexivity|split; [exact H8|]]].
  - unfold match_at, C.function_pattern, spaces1, spaces0, word1.
    rewrite !run_seq.
    apply (run_group_plus 1 Word w1 c _ _ _ _ Hc Hn1 Hw1); [reflexivity|].
    fold c1. apply (run_plus_greedy Space " " c1 _ _ _ _ H1);
      [reflexivity|reflexivity|now apply stops_space_word|].
    fold c2. apply (run_group_plus 2 Word w2 c2 _ _ _ _ H2 Hn2 Hw2);
      [reflexivity|].
    fold c3. apply (run_star_greedy Space EmptyString c3 _ _ _ _ H3);
      [reflexivity|reflexivity|].
    change (after EmptyString c3) with c3.
    rewrite (run_chr (Lit "(") c3 _ _ "(" _ H3 eq_refl).
    change (advance c3) with c4.
    apply (run_star_greedy (NoneOf [ALit ")"]) params c4 _ _ _ _ H4).
    { clear -Hp. induction params as [|a p IH]; [reflexivity|].
      simpl in Hp. apply andb_prop in Hp as [Ha Hp].
      cbn [all_in]. rewrite (IH Hp), andb_true_r.
      cbn [cls_match existsb atom_match]. now rewrite orb_false_r. }
    { reflexivity. }
    fold c5. rewrite (run_chr (Lit ")") c5 _ _ ")" _ H5 eq_refl).
    change (advance c5) with c6.
    apply (run_star_greedy Space " " c6 _ _ _ _ H6);
      [reflexivity|reflexivity|].
    fold c7. rewrite (run_chr (Lit "{") c7 _ _ "{" _ H7 eq_refl).
    reflexivity.
  - cbn [m_end].
    unfold c8. rewrite (after_pos _ _ _ H7).
    unfold c7. rewrite (after_pos _ _ _ H6).
    unfold c6. rewrite (after_pos _ _ _ H5).
    unfold c5. rewrite (after_pos _ _ _ H4).
    unfold c4. rewrite (after_pos _ _ _ H3).
    unfold c3. rewrite (after_pos _ _ _ H2).
    unfold c2. rewrite (after_pos _ _ _ H1).
    unfold c1. rewrite (after_pos _ _ _ Hc). simpl. lia.
Qed.

End CFunctions.

Section CFunctionsTheorem.

Lemma c_function_no_match_at_end c :
  cur_rest c = EmptyString -> match_at C.function_pattern c = None.
Proof.
  intros Hc. unfold match_at, C.function_pattern, word1, Plus.
  rewrite !run_seq. cbn [run]. now rewrite Hc.
Qed.

Lemma finditer_declaration w1 w2 params :
  is_word_text w1 = true -> is_word_text w2 = true ->
  is_params params = true ->
  exists m,
    finditer C.function_pattern (declaration w1 w2 params) = [m]
    /\ m_groups m = <[2 := w2]> (<[1 := w1]> ∅).
Proof.
  intros H1 H2 Hp.
  destruct (c_function_match w1 w2 params
              (start (declaration w1 w2 params)) H1 H2 Hp eq_refl)
    as (m & Hm & Hg & Hrest & Hpos).
  exists m. split; [|exact Hg]. unfold finditer.
  rewrite (scan_match _ _ _ m Hm Hpos).
  rewrite scan_at_end; auto using c_function_no_match_at_end.
Qed.

(** Lines 194-196 keep, in order, the second group of every match whose
    first group is not a keyword. *)
Lemma function_steps ms acc :
  fold_left C.function_step ms acc
  = acc ++ map (fun m => group_str m 2)
             (List.filter
                (fun m => negb (str_in (group_str m 1) C.keywords)) ms).
Proof.
  revert acc. induction ms as [|m ms IH]; intros acc.
  - simpl. now rewrite app_nil_r.
  - cbn [fold_left List.filter]. rewrite IH. unfold C.function_step.
    destruct (negb (str_in (group_str m 1) C.keywords)); [|reflexivity].
    cbn [map]. now rewrite <- app_assoc.
Qed.

Lemma c_functions_lookup content :
  _analyze_c_cpp content !! "functions"
  = Some (VList (fold_left C.function_step
                   (finditer C.function_pattern content) [])).
Proof.
  unfold _analyze_c_cpp.
  rewrite lookup_insert_ne by discriminate. apply lookup_insert_eq.
Qed.

(** C6: the functions the C extractor reports are the second words of
    the matches of [<word> <word> ( ... ) {] whose first word is none of
    [if], [for], [while], [switch]; a text that is one such declaration
    yields its second word, or nothing when its first word is one of the
    four; and the input of the specification yields [add]. *)
Theorem c_functions_skip_keywords :
  (forall content,
      _analyze_c_cpp content !! "functions"
      = Some (VList
                (map (fun m => group_str m 2)
                   (List.filter
                      (fun m => negb (str_in (group_str m 1) C.keywords))
                      (finditer C.function_pattern content)))))
  /\ (forall w1 w2 params,
         is_word_text w1 = true -> is_word_text w2 = true ->
         is_params params = true ->
         _analyze_c_cpp (declaration w1 w2 params) !! "functions"
         = Some (VList (if str_in w1 C.keywords then [] else [w2])))
  /\ _analyze_c_cpp ("if (x) {" +:+ Text.nl +:+ "int add(int a, int b) {"
                     +:+ Text.nl) !! "functions"
     = Some (VList ["add"]).
Proof.
  split; [|split].
  - intros content. rewrite c_functions_lookup. now rewrite function_steps.
  - intros w1 w2 params H1 H2 Hp. rewrite c_functions_lookup.
    destruct (finditer_declaration w1 w2 params H1 H2 Hp) as (m & -> & Hg).
    assert (G1 : group_str m 1 = w1).
    { unfold group_str, group. rewrite Hg.
      rewrite lookup_insert_ne by discriminate.
      now rewrite lookup_insert_eq. }
    assert (G2 : group_str m 2 = w2).
    { unfold group_str, group. rewrite Hg. now rewrite lookup_insert_eq. }
    cbn [fold_left]. unfold C.function_step. rewrite G1, G2.
    now destruct (str_in w1 C.keywords).
  - vm_compute. reflexivity.
Qed.

End CFunctionsTheorem.

Lemma c_functions_skip_keywords_witness :
  _analyze_c_cpp (declaration "int" "add" "int a, int b") !! "functions"
  = Some (VList ["add"])
  /\ _analyze_c_cpp (declaration "while" "ready" EmptyString) !! "functions"
     = Some (VList []).
Proof.
  destruct c_functions_skip_keywords as (_ & H & _). split.
  - exact (H "int" "add" "int a, int b" eq_refl eq_refl eq_refl).
  - exact (H "while" "ready" EmptyString eq_refl eq_refl eq_refl).
Defined.

(* ===================================================================== *)
(** ** The Python extractor on import lines *)
(* ===================================================================== *)

Section PythonImports.

Lemma run_bol {R} c g (k : cursor -> gmap nat string -> option R) :
  at_bol c = true -> run Bol c g k = k c g.
Proof. intros H. simpl. now rewrite H. Qed.

Lemma run_bol_not {R} c g (k : cursor -> gmap nat string -> option R) :
  at_bol c = false -> run Bol c g k = None.
Proof. intros H. simpl. now rewrite H. Qed.

Lemma run_eol {R} c g (k : cursor -> gmap nat string -> option R) a rest :
  cur_rest c = String a rest -> Ascii.eqb a Text.newline = true ->
  run Eol c g k = k c g.
Proof. intros Hc Ha. simpl. unfold at_eol. now rewrite Hc, Ha. Qed.

Lemma stops_space_app s rest :
  Text.nonempty s = true -> stops Text.is_space s = true ->
  stops (cls_match Space) (s +:+ rest) = true.
Proof.
  destruct s as [|a s]; [discriminate|]. intros _ H.
  rewrite str_app_cons. exact H.
Qed.

(** What the pattern does once it stands before [import <names>]. *)
Lemma import_tail names rest c g :
  is_names names = true ->
  cur_rest c = "import" +:+ " " +:+ names +:+ Text.nl +:+ rest ->
  run (Str "import") c g (fun c1 g1 =>
    run spaces1 c1 g1 (fun c2 g2 =>
      run (Group 2 (Plus true (Chr Dot))) c2 g2 (fun c3 g3 =>
        run Eol c3 g3 (fun c' g' => Some (Match c' g')))))
  = Some (Match (after names (after " " (after "import" c)))
            (<[2 := names]> g)).
Proof.
  intros [[Hstop Hne]%andb_prop Hline]%andb_prop Hc.
  pose proof (after_rest _ _ _ Hc) as H1.
  pose proof (after_rest _ _ _ H1) as H2.
  pose proof (after_rest _ _ _ H2) as H3.
  rewrite (run_str _ _ _ _ _ Hc).
  apply (run_plus_greedy Space " " _ _ _ _ _ H1);
    [reflexivity|reflexivity|now apply stops_space_app|].
  apply (run_group_plus 2 Dot names _ _ _ _ _ H2 Hne Hline); [reflexivity|].
  now rewrite (run_eol _ _ _ Text.newline rest H3).
Qed.

Lemma import_match st rest c :
  is_import st = true -> at_bol c = true ->
  cur_rest c = render st +:+ Text.nl +:+ rest ->
  exists m,
    match_at Python.import_pattern c = Some m
    /\ (forall acc, Python.import_step acc m = acc ++ expanded st)
    /\ cur_rest (m_end m) = Text.nl +:+ rest
    /\ cur_pos c < cur_pos (m_end m).
Proof.
  intros Hst Hbol Hc. destruct st as [names|module names]; simpl in Hst.
  - (* import <names> *)
    unfold render in Hc. rewrite str_app_assoc in Hc.
    change ("import " +:+ names +:+ Text.nl +:+ rest)
      with ("import" +:+ " " +:+ names +:+ Text.nl +:+ rest) in Hc.
    pose proof (after_rest _ _ _ Hc) as H1.
    pose proof (after_rest _ _ _ H1) as H2.
    pose proof (after_rest _ _ _ H2) as H3.
    eexists. split; [|split; [|split]].
    + unfold match_at, Python.import_pattern, Opt. rewrite !run_seq.
      rewrite (run_bol _ _ _ Hbol).
      rewrite run_alt_r.
      * rewrite run_eps. now apply (import_tail names rest).
      * rewrite !run_seq.
        eapply run_str_mismatch; [exact Hc|reflexivity].
    + intros acc. unfold Python.import_step, group_truthy, group_str, group.
      cbn [m_groups]. rewrite lookup_insert_ne by discriminate.
      rewrite lookup_empty, lookup_insert_eq. cbn [default].
      apply fold_left_snoc.
    + exact H3.
    + cbn [m_end]. rewrite (after_pos _ _ _ H2), (after_pos _ _ _ H1),
        (after_pos _ _ _ Hc). simpl. lia.
  - (* from <module> import <names> *)
    apply andb_prop in Hst as [Hmod Hnames].
    pose proof Hmod as [Hmne Hmall]%andb_prop.
    unfold render in Hc. rewrite !str_app_assoc in Hc.
    change ("from " +:+ module +:+ " import " +:+ names +:+ Text.nl +:+ rest)
      with ("from" +:+ " " +:+ module +:+ " " +:+ "import" +:+ " "
            +:+ names +:+ Text.nl +:+ rest) in Hc.
    pose proof (after_rest _ _ _ Hc) as H1.
    pose proof (after_rest _ _ _ H1) as H2.
    pose proof (after_rest _ _ _ H2) as H3.
    pose proof (after_rest _ _ _ H3) as H4.
    pose proof (after_rest _ _ _ H4) as H5.
    pose proof (after_rest _ _ _ H5) as H6.
    pose proof (after_rest _ _ _ H6) as H7.
    eexists. split; [|split; [|split]].
    + unfold match_at, Python.import_pattern, Opt. rewrite !run_seq.
      rewrite (run_bol _ _ _ Hbol).
      apply run_alt_l. rewrite !run_seq.
      rewrite (run_str _ _ _ _ _ Hc).
      apply (run_plus_greedy Space " " _ _ _ _ _ H1);
        [reflexivity|reflexivity| |].
      { destruct module as [|a module]; [discriminate|].
        rewrite str_app_cons. simpl in Hmall.
        apply andb_prop in Hmall as [Ha _]. exact Ha. }
      apply (run_group_plus 1 NotSpace module _ _ _ _ _ H2 Hmne Hmall);
        [reflexivity|].
      apply (run_plus_greedy Space " " _ _ _ _ _ H3);
        [reflexivity|reflexivity|reflexivity|].
      now apply (import_tail names rest).
    + intros acc. unfold Python.import_step, group_truthy, group_str, group.
      cbn [m_groups]. rewrite lookup_insert_ne by discriminate.
      rewrite !lookup_insert_eq. cbn [default]. rewrite Hmne.
      apply fold_left_snoc.
    + exact H7.
    + cbn [m_end]. rewrite (after_pos _ _ _ H6), (after_pos _ _ _ H5),
        (after_pos _ _ _ H4), (after_pos _ _ _ H3), (after_pos _ _ _ H2),
        (after_pos _ _ _ H1), (after_pos _ _ _ Hc). simpl. lia.
Qed.

End PythonImports.

Section PythonImportsTheorem.

Lemma import_no_match_at_end c :
  cur_rest c = EmptyString -> match_at Python.import_pattern c = None.
Proof.
  intros Hc. unfold match_at, Python.import_pattern, Opt.
  rewrite !run_seq. destruct (at_bol c) eqn:Hbol;
    [|now rewrite run_bol_not].
  rewrite (run_bol _ _ _ Hbol), run_alt_r.
  - rewrite run_eps. now rewrite (run_str_end _ _ _ _ _ Hc).
  - rewrite !run_seq. now rewrite (run_str_end _ _ _ _ _ Hc).
Qed.

Lemma import_no_match_at_newline c rest :
  cur_rest c = String Text.newline rest ->
  match_at Python.import_pattern c = None.
Proof.
  intros Hc. unfold match_at, Python.import_pattern, Opt.
  rewrite !run_seq. destruct (at_bol c) eqn:Hbol;
    [|now rewrite run_bol_not].
  rewrite (run_bol _ _ _ Hbol), run_alt_r.
  - rewrite run_eps.
    now rewrite (run_str_mismatch "i" _ _ _ _ _ _ Hc eq_refl).
  - rewrite !run_seq.
    now rewrite (run_str_mismatch "f" _ _ _ _ _ _ Hc eq_refl).
Qed.

Lemma render_length st : 0 < String.length (render st).
Proof. destruct st; simpl; rewrite str_length_app; simpl; lia. Qed.

Lemma scan_program stmts : forall fuel c acc,
  forallb is_import stmts = true -> at_bol c = true ->
  cur_rest c = program stmts -> String.length (cur_rest c) < fuel ->
  fold_left Python.import_step (scan fuel Python.import_pattern c) acc
  = acc ++ concat (map expanded stmts).
Proof.
  induction stmts as [|st stmts IH]; intros fuel c acc Hok Hbol Hc Hfuel.
  - rewrite scan_at_end; auto using import_no_match_at_end.
    simpl. now rewrite app_nil_r.
  - simpl in Hok. apply andb_prop in Hok as [Hst Hok].
    cbn [program] in Hc.
    destruct (import_match st (program stmts) c Hst Hbol Hc)
      as (m & Hm & Hstep & Hrest & Hpos).
    rewrite Hc, !str_length_app in Hfuel. pose proof (render_length st).
    cbn [String.length Text.nl] in Hfuel.
    destruct fuel as [|[|fuel]]; [lia..|].
    rewrite (scan_match _ _ _ m Hm Hpos).
    change (Text.nl +:+ program stmts)
      with (String Text.newline (program stmts)) in Hrest.
    rewrite (scan_skip _ _ _ _ _
               (import_no_match_at_newline _ _ Hrest) Hrest).
    cbn [fold_left]. rewrite Hstep. rewrite IH; auto.
    + cbn [map concat]. now rewrite app_assoc.
    + unfold advance, at_bol. now rewrite Hrest.
    + now apply (advance_rest _ Text.newline).
    + rewrite (advance_rest _ Text.newline _ Hrest). lia.
Qed.

Lemma python_imports_lookup content :
  _analyze_python content !! "imports"
  = Some (VList (fold_left Python.import_step
                   (finditer Python.import_pattern content) [])).
Proof.
  unfold _analyze_python.
  rewrite !lookup_insert_ne by discriminate. apply lookup_insert_eq.
Qed.

(** C5: on a text of import lines the Python extractor reports, line by
    line, [<module>.<name>] for every name of a [from]-import and the
    name itself for every name of a plain [import], names being split at
    commas and trimmed; and the input of the specification yields [os],
    [sys.path], [sys.argv]. *)
Theorem python_imports_expanded :
  (forall stmts,
      forallb is_import stmts = true ->
      _analyze_python (program stmts) !! "imports"
      = Some (VList (concat (map expanded stmts))))
  /\ _analyze_python ("import os" +:+ Text.nl
                      +:+ "from sys import path, argv" +:+ Text.nl)
       !! "imports"
     = Some (VList ["os"; "sys.path"; "sys.argv"]).
Proof.
  split.
  - intros stmts Hok. rewrite python_imports_lookup. unfold finditer.
    rewrite (scan_program stmts); auto.
  - vm_compute. reflexivity.
Qed.

End PythonImportsTheorem.

Lemma python_imports_expanded_witness :
  _analyze_python
    (program [Import "os"; FromImport "sys" "path, argv";
              Import "re as regex , json"]) !! "imports"
  = Some (VList ["os"; "sys.path"; "sys.argv"; "re as regex"; "json"]).
Proof.
  destruct python_imports_expanded as [H _].
  exact (H [Import "os"; FromImport "sys" "path, argv";
            Import "re as regex , json"] eq_refl).
Defined.

(* ===================================================================== *)
(** ** What the walk lists *)
(* ===================================================================== *)

Section Listing.
Variable fnmatch : string -> string -> bool.
Variable self : ProjectAnalyzer.

Local Abbreviation ignored := (_is_ignored_dir fnmatch self).

Lemma proper_name_valid s : proper_name s = true -> valid_name s = true.
Proof. unfold proper_name. now intros [H _]%andb_prop. Qed.

Lemma proper_names_valid l :
  Forall (fun s => proper_name s = true) l ->
  Forall (fun s => valid_name s = true) l.
Proof.
  induction 1 as [|s l Hs _ IH]; constructor;
    [now apply proper_name_valid|exact IH].
Qed.

(** Below the project no directory has the relative path [.]. *)
Lemma relpath_not_dot comps :
  Forall (fun s => proper_name s = true) comps -> comps <> [] ->
  String.eqb (PosixPath.relpath comps) "." = false.
Proof.
  intros H Hne. destruct H as [|c comps Hc Hcomps]; [congruence|].
  apply String.eqb_neq. unfold PosixPath.relpath.
  destruct comps as [|c' comps].
  - simpl. unfold proper_name in Hc. apply andb_prop in Hc as [_ Hc].
    apply negb_true_iff in Hc. now apply String.eqb_neq in Hc.
  - rewrite join_cons by congruence. intros Heq.
    assert (Hs : Text.contains "/" "." = true).
    { rewrite <- Heq, contains_app. rewrite contains_app.
      simpl. now rewrite orb_true_r. }
    discriminate.
Qed.

Lemma visit_files_list rel_root fnames info :
  files (fold_left (visit_file rel_root) fnames info)
  = files info ++ map (file_path_of rel_root) fnames.
Proof.
  revert info. induction fnames as [|f l IH]; intros info.
  - simpl. now rewrite app_nil_r.
  - cbn [fold_left map]. rewrite IH. cbn [visit_file files].
    fold (file_path_of rel_root f). now rewrite <- app_assoc.
Qed.

Lemma visit_lists comps fnames info :
  Forall (fun s => proper_name s = true) comps ->
  forallb proper_name fnames = true ->
  files (visit comps fnames info)
  = files info ++ map (fun f => Text.join "/" (comps ++ [f])) fnames
  /\ directories (visit comps fnames info)
     = directories info ++ self_entry comps.
Proof.
  intros Hcomps Hfiles. unfold visit.
  match goal with
  | |- context [fold_left _ _ ?i] => set (info1 := i)
  end.
  destruct (visit_files_directories (PosixPath.relpath comps) fnames info1)
    as [-> _].
  rewrite visit_files_list.
  assert (Hpaths : map (file_path_of (PosixPath.relpath comps)) fnames
                   = map (fun f => Text.join "/" (comps ++ [f])) fnames).
  { apply map_ext_in. intros f Hf.
    rewrite forallb_forall in Hfiles.
    rewrite file_path_of_join;
      [|now apply proper_names_valid|apply proper_name_valid; auto].
    destruct comps as [|c comps]; [reflexivity|].
    now rewrite relpath_not_dot. }
  rewrite Hpaths. subst info1. destruct comps as [|c comps].
  - simpl. split; [reflexivity|now rewrite app_nil_r].
  - rewrite relpath_not_dot by (auto; congruence). simpl. split; reflexivity.
Qed.

Lemma walk_lists t : forall comps info,
  proper_tree t = true ->
  Forall (fun s => proper_name s = true) comps ->
  files (walk fnmatch self comps t info)
  = files info
    ++ map (fun cs => Text.join "/" (comps ++ cs)) (listed_files ignored t)
  /\ directories (walk fnmatch self comps t info)
     = directories info ++ self_entry comps
       ++ map (fun cs => Text.join "/" (comps ++ cs))
            (listed_dirs ignored t).
Proof.
  induction t as [fnames subdirs IH] using tree_induction.
  intros comps info Hproper Hcomps. simpl in Hproper.
  apply andb_prop in Hproper as [Hfiles Hsub].
  destruct (visit_lists comps fnames info Hcomps Hfiles) as [Hvf Hvd].
  cbn [walk listed_files listed_dirs].
  rewrite map_app, map_map, app_assoc, <- Hvf.
  rewrite (app_assoc (directories info)), <- Hvd.
  generalize (visit comps fnames info). clear Hvf Hvd Hfiles info.
  induction IH as [|[d sub] l Hd Hl IHl]; intros info.
  - simpl. now rewrite !app_nil_r.
  - apply andb_prop in Hsub as [Hsub Hl'].
    apply andb_prop in Hsub as [Hname Ht'].
    destruct (ignored d) eqn:Hign; [now apply IHl|].
    destruct sub as [t'|]; [|now apply IHl].
    destruct (IHl Hl' (walk fnmatch self (comps ++ [d]) t' info))
      as [IHf IHd].
    destruct (Hd (comps ++ [d]) info Ht') as [Hf' Hd'].
    { apply Forall_app. split; [exact Hcomps|now constructor]. }
    rewrite IHf, IHd, Hf', Hd'. rewrite !map_app, !map_map.
    assert (Hext : forall cs,
               Text.join "/" ((comps ++ [d]) ++ cs)
               = Text.join "/" (comps ++ d :: cs)).
    { intros cs. now rewrite <- app_assoc. }
    split.
    + rewrite <- !app_assoc. f_equal. f_equal.
      apply map_ext. intros cs. apply Hext.
    + cbn [map]. rewrite <- !app_assoc. f_equal.
      assert (Hself : self_entry (comps ++ [d])
                      = [Text.join "/" (comps ++ [d])])
        by (destruct comps; reflexivity).
      rewrite Hself. cbn [app]. rewrite map_map. f_equal. f_equal.
      apply map_ext. intros cs. apply Hext.
Qed.

(** X1: on a listing with proper names [files] is, in the order of the
    walk, the relative path of every file that lies below no ignored
    directory, [directories] the relative path of every directory
    entered, and [file_count] the number of those files. *)
Theorem analyze_project_lists fs project_path info t :
  analyze_project fnmatch self fs project_path = Ok info ->
  fs_walk fs project_path = Some t ->
  proper_tree t = true ->
  files info = map (Text.join "/") (listed_files ignored t)
  /\ directories info = map (Text.join "/") (listed_dirs ignored t)
  /\ file_count info = Z.of_nat (length (listed_files ignored t)).
Proof.
  unfold analyze_project. destruct (negb _); [discriminate|].
  intros [= <-] -> Hproper.
  set (info0 := {| path := project_path; files := []; file_count := 0;
                   directories := []; directory_count := 0;
                   file_types := ∅ |}).
  destruct (walk_lists t [] info0 Hproper (List.Forall_nil _)) as [Hf Hd].
  assert (Hc : counts_agree (walk fnmatch self [] t info0)).
  { apply (walk_invariant fnmatch self counts_agree).
    - intros; now apply visit_counts.
    - split; reflexivity. }
  destruct Hc as [Hc _]. simpl in Hf, Hd.
  rewrite Hc, Hf, Hd, length_map. auto.
Qed.

End Listing.

Lemma analyze_project_lists_witness :
  exists info,
    analyze_project Sample.fnmatch_glob Sample.analyzer Sample.disk "/proj"
    = Ok info
    /\ files info
       = ["main.py"; "Makefile"; "README"; ".gitignore"; "src/app.py";
          "src/view.JS"; "src/lib/core.c"; "src/lib/core.h"]
    /\ directories info = ["src"; "src/lib"]
    /\ file_count info = 8%Z.
Proof.
  eexists. split; [reflexivity|].
  exact (analyze_project_lists Sample.fnmatch_glob Sample.analyzer
           Sample.disk "/proj" _ Sample.project eq_refl eq_refl eq_refl).
Defined.

(* ===================================================================== *)
(** ** The histogram, key by key *)
(* ===================================================================== *)

Section HistogramKeys.
Variable fnmatch : string -> string -> bool.
Variable self : ProjectAnalyzer.

Lemma lower_char_idem c : Text.lower_char (Text.lower_char c) = Text.lower_char c.
Proof. destruct c as [[] [] [] [] [] [] [] []]; reflexivity. Qed.

Lemma lower_idem s : Text.lower (Text.lower s) = Text.lower s.
Proof.
  induction s as [|c s IH]; [reflexivity|].
  simpl. now rewrite lower_char_idem, IH.
Qed.

(** From the index [rfind] returns on, the text starts with the
    character looked for. *)
Lemma drop_rfind x s :
  (0 <= Text.rfind x s)%Z ->
  exists r, Text.drop (Z.to_nat (Text.rfind x s)) s = String x r.
Proof.
  induction s as [|c s IH]; simpl; [lia|].
  destruct (0 <=? Text.rfind x s)%Z eqn:H.
  - intros _. apply Z.leb_le in H. destruct (IH H) as [r Hr].
    exists r. replace (Z.to_nat (Text.rfind x s + 1))
      with (S (Z.to_nat (Text.rfind x s))) by lia.
    exact Hr.
  - destruct (Ascii.eqb_spec c x) as [->|Hne]; [|lia].
    intros _. now exists s.
Qed.

(** An extension is empty or starts with a dot. *)
Lemma splitext_ext_shape p :
  snd (PosixPath.splitext p) = EmptyString
  \/ exists r, snd (PosixPath.splitext p) = String "." r.
Proof.
  unfold PosixPath.splitext.
  destruct (_ && _) eqn:H; [|now left]. right.
  apply andb_prop in H as [H _]. apply Z.ltb_lt in H.
  pose proof (rfind_bounds "/" p). apply drop_rfind. lia.
Qed.

Lemma visit_file_keys rel_root info f :
  keys_well_formed info -> keys_well_formed (visit_file rel_root info f).
Proof.
  intros Hinfo k n. cbn [visit_file file_types].
  destruct (Text.nonempty _) eqn:Hne; [|apply Hinfo].
  destruct (decide (Text.lower (snd (PosixPath.splitext f)) = k))
    as [Hk|Hk].
  - rewrite Hk, lookup_insert_eq. intros [= <-]. repeat split.
    + destruct (splitext_ext_shape f) as [He|[r He]];
        rewrite He in Hk, Hne; [discriminate|].
      exists (Text.lower r). now rewrite <- Hk.
    + rewrite <- Hk. apply lower_idem.
    + destruct (file_types info !! k) as [m|] eqn:Hm; simpl; [|lia].
      destruct (Hinfo k m Hm) as (_ & _ & ?). lia.
  - rewrite lookup_insert_ne by exact Hk. apply Hinfo.
Qed.

Lemma visit_keys comps fnames info :
  keys_well_formed info -> keys_well_formed (visit comps fnames info).
Proof.
  intros Hinfo. unfold visit.
  match goal with
  | |- context [fold_left _ _ ?i] =>
      assert (Hstart : keys_well_formed i)
        by (destruct (negb _); exact Hinfo);
      generalize dependent i
  end.
  clear Hinfo info. induction fnames as [|f l IH]; intros info Hinfo;
    [exact Hinfo|].
  simpl. apply IH. now apply visit_file_keys.
Qed.

(** X2: every key of [file_types] starts with a dot and is in lower
    case, and every count is at least 1. *)
Theorem analyze_project_file_type_keys fs project_path info k n :
  analyze_project fnmatch self fs project_path = Ok info ->
  file_types info !! k = Some n ->
  (exists r, k = String "." r) /\ Text.lower k = k /\ (1 <= n)%Z.
Proof.
  unfold analyze_project. destruct (negb _); [discriminate|].
  intros [= <-]. destruct (fs_walk fs project_path) as [t|].
  - apply (walk_invariant fnmatch self keys_well_formed).
    + intros; now apply visit_keys.
    + intros k' n'. simpl. now rewrite lookup_empty.
  - simpl. now rewrite lookup_empty.
Qed.

Lemma count_ext_snoc k paths p :
  count_ext k (paths ++ [p])
  = (count_ext k paths
     + if Text.nonempty k && String.eqb (lower_ext p) k then 1 else 0)%Z.
Proof.
  unfold count_ext. rewrite List.filter_app, length_app. cbn [List.filter].
  destruct (_ && _); simpl; lia.
Qed.

Lemma count_ext_nonneg k paths : (0 <= count_ext k paths)%Z.
Proof. unfold count_ext. lia. Qed.

Lemma visit_file_counted comps info f :
  Forall (fun s => valid_name s = true) comps -> valid_name f = true ->
  counted_by_extension info ->
  counted_by_extension (visit_file (PosixPath.relpath comps) info f).
Proof.
  intros Hcomps Hf Hinfo k. cbn [visit_file file_types files].
  fold (file_path_of (PosixPath.relpath comps) f).
  assert (Hext : lower_ext (file_path_of (PosixPath.relpath comps) f)
                 = Text.lower (snd (PosixPath.splitext f))).
  { unfold lower_ext. now rewrite file_path_of_ext. }
  rewrite count_ext_snoc, Hext.
  pose proof (count_ext_nonneg k (files info)) as Hpos.
  specialize (Hinfo k) as Hk.
  set (ext := Text.lower (snd (PosixPath.splitext f))) in *.
  destruct (Text.nonempty ext) eqn:Hne.
  - destruct (String.eqb_spec ext k) as [<-|Hneq].
    + rewrite Hne, lookup_insert_eq. cbn [andb].
      rewrite Hk.
      destruct (count_ext ext (files info) =? 0)%Z eqn:Hz.
      * apply Z.eqb_eq in Hz. rewrite Hz. reflexivity.
      * apply Z.eqb_neq in Hz.
        replace (count_ext ext (files info) + 1 =? 0)%Z with false
          by (symmetry; apply Z.eqb_neq; lia).
        reflexivity.
    + rewrite lookup_insert_ne by exact Hneq. rewrite andb_false_r.
      now rewrite Z.add_0_r.
  - destruct (Text.nonempty k && String.eqb ext k) eqn:Hb.
    + apply andb_prop in Hb as [Hk1 Hk2]. apply String.eqb_eq in Hk2.
      subst k. congruence.
    + now rewrite Z.add_0_r.
Qed.

Lemma visit_counted comps fnames info :
  Forall (fun s => valid_name s = true) comps ->
  forallb valid_name fnames = true ->
  counted_by_extension info -> counted_by_extension (visit comps fnames info).
Proof.
  intros Hcomps Hfiles Hinfo. unfold visit.
  match goal with
  | |- context [fold_left _ _ ?i] =>
      assert (Hstart : counted_by_extension i)
        by (destruct (negb _); exact Hinfo);
      generalize dependent i
  end.
  clear Hinfo info. induction fnames as [|f l IH]; intros info Hinfo;
    [exact Hinfo|].
  simpl in Hfiles. apply andb_prop in Hfiles as [Hf Hl].
  simpl. apply IH; [exact Hl|]. now apply visit_file_counted.
Qed.

(** X3: for every extension [k], [file_types] maps [k] to the number of
    recorded files whose lower-cased extension is [k], and has no entry
    for [k] when there is none or [k] is empty. *)
Theorem analyze_project_counts_by_extension fs project_path info k :
  analyze_project fnmatch self fs project_path = Ok info ->
  match fs_walk fs project_path with
  | Some t => valid_tree t = true
  | None => True
  end ->
  file_types info !! k
  = if (count_ext k (files info) =? 0)%Z then None
    else Some (count_ext k (files info)).
Proof.
  unfold analyze_project. destruct (negb _); [discriminate|].
  intros [= <-] Hvalid. revert k.
  change (counted_by_extension
            match fs_walk fs project_path with
            | Some t =>
                walk fnmatch self [] t
                  {| path := project_path; files := [];
                     file_count := 0; directories := [];
                     directory_count := 0; file_types := ∅ |}
            | None =>
                {| path := project_path; files := [];
                   file_count := 0; directories := [];
                   directory_count := 0; file_types := ∅ |}
            end).
  destruct (fs_walk fs project_path) as [t|].
  - apply (walk_invariant_valid fnmatch self counted_by_extension
             (Forall (fun s => valid_name s = true))); auto.
    + intros. now apply visit_counted.
    + intros comps d Hc Hd _. apply Forall_app. split; [exact Hc|].
      now constructor.
    + intros k. simpl. now rewrite lookup_empty.
  - intros k. simpl. now rewrite lookup_empty.
Qed.

End HistogramKeys.

Lemma analyze_project_file_type_keys_witness :
  (exists r, ".py" = String "." r) /\ Text.lower ".py" = ".py" /\ (1 <= 2)%Z.
Proof.
  exact (analyze_project_file_type_keys Sample.fnmatch_glob Sample.analyzer
           Sample.disk "/proj" _ ".py" 2%Z eq_refl eq_refl).
Defined.

Lemma analyze_project_counts_by_extension_witness :
  exists info,
    analyze_project Sample.fnmatch_glob Sample.analyzer Sample.disk "/proj"
    = Ok info
    /\ file_types info !! ".js" = Some 1%Z
    /\ file_types info !! ".JS" = None.
Proof.
  eexists. split; [reflexivity|]. split.
  - exact (analyze_project_counts_by_extension Sample.fnmatch_glob
             Sample.analyzer Sample.disk "/proj" _ ".js" eq_refl eq_refl).
  - reflexivity.
Defined.

(* ===================================================================== *)
(** ** [get_project_summary] *)
(* ===================================================================== *)

Section SummaryFacts.
Variable fnmatch : string -> string -> bool.
Variable self : ProjectAnalyzer.

Lemma important_steps l acc :
  fold_left important_step l acc = acc ++ List.filter is_important l.
Proof.
  revert acc. induction l as [|f l IH]; intros acc.
  - simpl. now rewrite app_nil_r.
  - cbn [fold_left List.filter]. rewrite IH. unfold important_step.
    fold (is_important f). destruct (is_important f); [|reflexivity].
    now rewrite <- app_assoc.
Qed.

Lemma filter_sublist {A} (p : A -> bool) (l : list A) :
  sublist (List.filter p l) l.
Proof.
  induction l as [|x l IH]; simpl; [constructor|].
  destruct (p x); now constructor.
Qed.

(** X4: [get_project_summary] raises what [analyze_project] raises;
    otherwise it hands on the counters and the histogram of all files,
    and [important_files] is the part of [files], in the same order,
    whose lower-cased path holds [main], [index], [app] or [config]. *)
Theorem get_project_summary_spec fs project_path :
  match analyze_project fnmatch self fs project_path with
  | Raise e => get_project_summary fnmatch self fs project_path = Raise e
  | Ok info =>
      exists s,
        get_project_summary fnmatch self fs project_path = Ok s
        /\ important_files s = List.filter is_important (files info)
        /\ sublist (important_files s) (files info)
        /\ summary_file_count s = Z.of_nat (length (files info))
        /\ summary_directory_count s
           = Z.of_nat (length (directories info))
        /\ summary_file_types s = file_types info
  end.
Proof.
  unfold get_project_summary.
  destruct (analyze_project fnmatch self fs project_path) as [info|e] eqn:Ha;
    [|reflexivity].
  eexists. split; [reflexivity|]. cbn.
  rewrite important_steps. cbn [app].
  assert (Hc : counts_agree info).
  { revert Ha. unfold analyze_project. destruct (negb _); [discriminate|].
    intros [= <-]. destruct (fs_walk fs project_path) as [t|].
    - apply (walk_invariant fnmatch self counts_agree).
      + intros; now apply visit_counts.
      + split; reflexivity.
    - split; reflexivity. }
  destruct Hc as [Hf Hd].
  repeat split; auto using filter_sublist.
Qed.

Lemma lower_app a b : Text.lower (a +:+ b) = Text.lower a +:+ Text.lower b.
Proof.
  induction a as [|c a IH]; [reflexivity|].
  rewrite str_app_cons. simpl. rewrite IH. now rewrite str_app_cons.
Qed.

Lemma starts_with_app pat s t :
  Text.starts_with pat s = true -> Text.starts_with pat (s +:+ t) = true.
Proof.
  revert s. induction pat as [|a pat IH]; intros s H; [reflexivity|].
  destruct s as [|b s]; [discriminate|].
  rewrite str_app_cons. simpl in *. apply andb_prop in H as [-> H].
  now apply IH.
Qed.

Lemma has_substring_app pat s t :
  Text.has_substring pat s = true ->
  Text.has_substring pat (s +:+ t) = true.
Proof.
  induction s as [|b s IH]; intros H.
  - cbn [Text.has_substring] in H. rewrite orb_false_r in H.
    destruct pat; [|discriminate]. destruct t; reflexivity.
  - cbn [Text.has_substring] in H. apply orb_prop in H as [H|H].
    + apply (starts_with_app _ _ t) in H. rewrite str_app_cons in *.
      cbn [Text.has_substring]. now rewrite H.
    + rewrite str_app_cons. cbn [Text.has_substring].
      rewrite (IH H). apply orb_true_r.
Qed.

Lemma is_important_app d rest :
  is_important d = true -> is_important (d +:+ rest) = true.
Proof.
  unfold is_important. rewrite lower_app. intros H.
  apply existsb_exists in H as (pat & Hin & Hpat).
  apply existsb_exists. exists pat. split; [exact Hin|].
  now apply has_substring_app.
Qed.

(** X5: the test looks at the whole relative path in lower case, so
    every recorded file below a directory whose own relative path holds
    one of the four words, in any letter case, is an important file. *)
Theorem important_below_directory fs project_path info s d f :
  analyze_project fnmatch self fs project_path = Ok info ->
  get_project_summary fnmatch self fs project_path = Ok s ->
  is_important d = true ->
  In (d +:+ "/" +:+ f) (files info) ->
  In (d +:+ "/" +:+ f) (important_files s).
Proof.
  intros Ha Hs Hd Hin. unfold get_project_summary in Hs. rewrite Ha in Hs.
  injection Hs as <-. cbn [important_files]. rewrite important_steps.
  cbn [app]. apply List.filter_In. split; [exact Hin|].
  now apply is_important_app.
Qed.

End SummaryFacts.

Lemma important_below_directory_witness :
  exists s,
    get_project_summary Sample.fnmatch_glob Sample.analyzer webapp_disk "/srv"
    = Ok s
    /\ In "WebApp/util.c" (important_files s).
Proof.
  eexists. split; [reflexivity|].
  apply (important_below_directory Sample.fnmatch_glob Sample.analyzer
           webapp_disk "/srv" _ _ "WebApp" "util.c" eq_refl eq_refl eq_refl).
  vm_compute. tauto.
Defined.

(* ===================================================================== *)
(** ** [get_file_context] *)
(* ===================================================================== *)

Section FileContext.
Implicit Types (self : ProjectAnalyzer) (fs : filesystem).

Lemma get_file_context_text self fs file_path n ctx :
  text_of (get_file_context self fs file_path (Some n) ctx)
  = let lines :=
      Text.splitlines (text_of (read_file self fs file_path)) in
    Text.join Text.nl
      (Text.slice lines (Z.max 0 (n - ctx - 1))
         (Z.min (Z.of_nat (length lines)) (n + ctx))).
Proof.
  unfold get_file_context. now destruct (read_file _ _ _) as [[c s] o].
Qed.

(** X6: for a line number within the text and a context that is not
    negative, the result joins a block of consecutive lines that starts
    [context_lines] lines before the line asked for (or at the top),
    holds that line and has at most [2 * context_lines + 1] lines. *)
Theorem get_file_context_window self fs file_path n ctx :
  let lines := Text.splitlines (text_of (read_file self fs file_path)) in
  (1 <= n <= Z.of_nat (length lines))%Z -> (0 <= ctx)%Z ->
  exists before window rest,
    lines = before ++ window ++ rest
    /\ text_of (get_file_context self fs file_path (Some n) ctx)
       = Text.join Text.nl window
    /\ Z.of_nat (length before) = Z.max 0 (n - ctx - 1)
    /\ (Z.of_nat (length window) <= 2 * ctx + 1)%Z
    /\ is_Some (lines !! Z.to_nat (n - 1))
    /\ window !! (Z.to_nat (n - 1) - length before)%nat
       = lines !! Z.to_nat (n - 1).
Proof.
  intros lines Hn Hctx. rewrite get_file_context_text. fold lines.
  cbv zeta. unfold Text.slice, Text.slice_index.
  set (len := Z.of_nat (length lines)) in *.
  set (a := Z.max 0 (n - ctx - 1)). set (b := Z.min len (n + ctx)).
  replace (a <? 0)%Z with false by (symmetry; apply Z.ltb_ge; lia).
  replace (b <? 0)%Z with false by (symmetry; apply Z.ltb_ge; lia).
  replace (Z.min a len) with a by lia.
  replace (Z.min b len) with b by lia.
  exists (take (Z.to_nat a) lines),
         (take (Z.to_nat (b - a)) (drop (Z.to_nat a) lines)),
         (drop (Z.to_nat (b - a)) (drop (Z.to_nat a) lines)).
  assert (Hlen : length (take (Z.to_nat a) lines) = Z.to_nat a).
  { rewrite length_take. subst len. lia. }
  repeat split.
  - now rewrite !take_drop.
  - lia.
  - rewrite length_take, length_drop. subst len. lia.
  - apply lookup_lt_is_Some. subst len. lia.
  - rewrite Hlen, lookup_take_lt by lia. rewrite lookup_drop.
    f_equal. lia.
Qed.

Lemma lines_from_nil s : Text.lines_from false s = [] -> s = EmptyString.
Proof.
  destruct s as [|c s]; [reflexivity|]. simpl.
  destruct (Text.is_linebreak c); [discriminate|].
  destruct (Text.lines_from false s); discriminate.
Qed.

Lemma join_cons_char sep c l ls :
  Text.join sep (String c l :: ls) = String c (Text.join sep (l :: ls)).
Proof. destruct ls; [reflexivity|]. simpl. now rewrite str_app_cons. Qed.

(** Splitting a text with newline breaks only and joining its lines
    again loses the final newline and nothing else. *)
Lemma join_splitlines s :
  unix_text s = true ->
  Text.join Text.nl (Text.splitlines s) = chomp s.
Proof.
  unfold Text.splitlines, unix_text.
  induction s as [|c s IH]; [reflexivity|]. intros H.
  cbn [all_in] in H. apply andb_prop in H as [Hc Hs].
  specialize (IH Hs). cbn [Text.lines_from andb].
  destruct (Text.is_linebreak c) eqn:Hb.
  - simpl in Hc. apply Ascii.eqb_eq in Hc. subst c.
    change (Ascii.eqb Text.newline Text.carriage_return) with false.
    destruct (Text.lines_from false s) as [|l ls] eqn:Hl.
    + apply lines_from_nil in Hl. now subst s.
    + destruct s as [|c s]; [discriminate|].
      change (Text.join Text.nl (EmptyString :: l :: ls))
        with (EmptyString +:+ Text.nl +:+ Text.join Text.nl (l :: ls)).
      rewrite IH. reflexivity.
  - assert (Hnl : Ascii.eqb c Text.newline = false).
    { destruct (Ascii.eqb_spec c Text.newline) as [->|]; [|reflexivity].
      discriminate. }
    destruct (Text.lines_from false s) as [|l ls] eqn:Hl.
    + apply lines_from_nil in Hl. subst s. simpl. now rewrite Hnl.
    + rewrite join_cons_char, IH.
      destruct s as [|c' s]; [discriminate|]. reflexivity.
Qed.

(** X7: when the context reaches over the whole text and the text breaks
    its lines with newlines only, the result is the text without its
    final newline. *)
Theorem get_file_context_whole self fs file_path n ctx :
  let content := text_of (read_file self fs file_path) in
  unix_text content = true ->
  (n - ctx <= 1)%Z ->
  (Z.of_nat (length (Text.splitlines content)) <= n + ctx)%Z ->
  text_of (get_file_context self fs file_path (Some n) ctx) = chomp content.
Proof.
  intros content Hunix Hlo Hhi. rewrite get_file_context_text.
  fold content. cbv zeta. unfold Text.slice, Text.slice_index.
  set (lines := Text.splitlines content) in *.
  replace (Z.max 0 (n - ctx - 1)) with 0%Z by lia.
  replace (Z.min (Z.of_nat (length lines)) (n + ctx))
    with (Z.of_nat (length lines)) by lia.
  replace (0 <? 0)%Z with false by reflexivity.
  replace (Z.of_nat (length lines) <? 0)%Z with false
    by (symmetry; apply Z.ltb_ge; lia).
  replace (Z.to_nat (Z.min 0 (Z.of_nat (length lines)))) with 0%nat by lia.
  replace (Z.to_nat (Z.min (Z.of_nat (length lines))
                       (Z.of_nat (length lines))
                     - Z.min 0 (Z.of_nat (length lines))))
    with (length lines) by lia.
  rewrite drop_0, firstn_all. now apply join_splitlines.
Qed.

(** X8: when the file cannot be read, nothing is cached, the diagnostic
    is printed and the result is the empty text, with or without a line
    number. *)
Theorem get_file_context_unreadable self fs file_path e line_number ctx :
  file_cache self !! file_path = None ->
  fs_read fs file_path = inr e ->
  get_file_context self fs file_path line_number ctx
  = (EmptyString, self,
     ["[bold red]Error reading file " +:+ file_path +:+ ": "
      +:+ e +:+ "[/bold red]"]).
Proof.
  intros Hc Hr. unfold get_file_context, read_file. rewrite Hc, Hr.
  destruct line_number as [n|]; [|reflexivity].
  change (Text.splitlines EmptyString) with (@nil string).
  unfold Text.slice. now rewrite drop_nil, take_nil.
Qed.

End FileContext.

Lemma get_file_context_window_witness :
  text_of (get_file_context
             (with_cache Sample.analyzer
                {[ "/proj/a.txt" := "one" +:+ Text.nl +:+ "two" +:+ Text.nl
                                    +:+ "three" +:+ Text.nl +:+ "four" ]})
             Sample.disk "/proj/a.txt" (Some 3%Z) 1%Z)
  = "two" +:+ Text.nl +:+ "three" +:+ Text.nl +:+ "four".
Proof.
  destruct (get_file_context_window
              (with_cache Sample.analyzer
                 {[ "/proj/a.txt" := "one" +:+ Text.nl +:+ "two" +:+ Text.nl
                                     +:+ "three" +:+ Text.nl +:+ "four" ]})
              Sample.disk "/proj/a.txt" 3%Z 1%Z)
    as (before & window & rest & _ & Htext & _).
  - vm_compute. split; discriminate.
  - lia.
  - reflexivity.
Defined.

Lemma get_file_context_whole_witness :
  text_of (get_file_context Sample.analyzer Sample.disk "/proj/main.py"
             (Some 1%Z) 5%Z) = "import os".
Proof.
  apply (get_file_context_whole Sample.analyzer Sample.disk "/proj/main.py"
           1%Z 5%Z); [reflexivity|lia|vm_compute; discriminate].
Defined.

Lemma get_file_context_unreadable_witness :
  get_file_context Sample.analyzer Sample.disk "/proj/notes.xyz"
    (Some 7%Z) 5%Z
  = (EmptyString, Sample.analyzer,
     ["[bold red]Error reading file /proj/notes.xyz: "
      +:+ "[Errno 2] No such file or directory[/bold red]"]).
Proof.
  exact (get_file_context_unreadable Sample.analyzer Sample.disk
           "/proj/notes.xyz" "[Errno 2] No such file or directory"
           (Some 7%Z) 5%Z eq_refl eq_refl).
Defined.

(* ===================================================================== *)
(** ** [analyze_file]: the base fields and the cache *)
(* ===================================================================== *)

Section AnalyzeFileFacts.
Implicit Types (self : ProjectAnalyzer) (fs : filesystem).


Lemma extractors_no_base_field content k :
  k ∈ base_fields ->
  _analyze_python content !! k = None
  /\ _analyze_c_cpp content !! k = None
  /\ _analyze_javascript content !! k = None.
Proof.
  unfold base_fields. intros Hk.
  assert (Hcases : k = "path" \/ k = "type" \/ k = "lines" \/ k = "size").
  { rewrite !elem_of_union, !elem_of_singleton in Hk. tauto. }
  clear Hk.
  repeat split; apply not_elem_of_dom;
    rewrite ?dom_analyze_python, ?dom_analyze_c_cpp,
      ?dom_analyze_javascript;
    destruct Hcases as [-> | [-> | [-> | ->]]];
    rewrite !not_elem_of_union, !not_elem_of_singleton;
    repeat split; discriminate.
Qed.

Lemma analyze_file_exists self fs file_path content :
  fs_exists fs file_path = true ->
  analyze_file self fs file_path content
  = match content with
    | Some c => (Ok (file_record file_path c), self, [])
    | None =>
        (Ok (file_record file_path
               (text_of (read_file self fs file_path))),
         self_of (read_file self fs file_path),
         printed_of (read_file self fs file_path))
    end.
Proof.
  intros He. unfold analyze_file. rewrite He. cbn [negb].
  destruct content as [c|]; [reflexivity|].
  now destruct (read_file self fs file_path) as [[c s] o].
Qed.

Lemma file_record_base file_path content k :
  k ∈ base_fields ->
  file_record file_path content !! k
  = ({[ "path" := VStr file_path;
        "type" := VStr (extension_of file_path);
        "lines" := VInt (Text.count Text.newline content + 1);
        "size" := VInt (Text.len content) ]} : gmap string value) !! k.
Proof.
  intros Hk. destruct (extractors_no_base_field content k Hk)
    as (Hpy & Hc & Hjs).
  unfold file_record, update.
  destruct (str_in _ recognized); [|reflexivity].
  destruct (String.eqb _ "py"); [now rewrite lookup_union_r|].
  destruct (str_in _ _); [now rewrite lookup_union_r|].
  destruct (String.eqb _ "js"); [now rewrite lookup_union_r|reflexivity].
Qed.


(** X10: once [analyze_file] has read a path itself, from the cache or
    from the disk, analysing the path again without [content] gives the
    same record, leaves the instance alone and prints nothing, whatever
    the file holds by then. *)
Theorem analyze_file_again self fs1 fs2 file_path info self1 printed :
  analyze_file self fs1 file_path None = (Ok info, self1, printed) ->
  file_cache self !! file_path <> None
  \/ (exists content, fs_read fs1 file_path = inl content) ->
  fs_exists fs2 file_path = true ->
  analyze_file self1 fs2 file_path None = (Ok info, self1, []).
Proof.
  intros H Hread He2.
  assert (He : fs_exists fs1 file_path = true).
  { unfold analyze_file in H. destruct (fs_exists fs1 file_path);
      [reflexivity|discriminate]. }
  rewrite (analyze_file_exists _ _ _ _ He) in H. injection H as <- <- _.
  rewrite (analyze_file_exists _ _ _ _ He2).
  apply read_file_caches in Hread.
  now rewrite (read_file_cached _ fs2 _ _ Hread).
Qed.

Lemma extract_nothing_from_empty :
  _analyze_python EmptyString
  = {[ "imports" := VList []; "functions" := VList [];
       "classes" := VList [] ]}
  /\ _analyze_c_cpp EmptyString
     = {[ "includes" := VList []; "functions" := VList [];
          "structs" := VList [] ]}
  /\ _analyze_javascript EmptyString
     = {[ "imports" := VList []; "functions" := VList [];
          "classes" := VList [] ]}.
Proof. repeat split; vm_compute; reflexivity. Qed.

(** X11: a path that exists but cannot be read is analysed as the empty
    text: no error is raised, the diagnostic of [read_file] is printed,
    [lines] is 1, [size] is 0 and every list of the record is empty. *)
Theorem analyze_file_unreadable self fs file_path e :
  fs_exists fs file_path = true ->
  file_cache self !! file_path = None ->
  fs_read fs file_path = inr e ->
  exists info,
    analyze_file self fs file_path None
    = (Ok info, self,
       ["[bold red]Error reading file " +:+ file_path +:+ ": "
        +:+ e +:+ "[/bold red]"])
    /\ info !! "lines" = Some (VInt 1)
    /\ info !! "size" = Some (VInt 0)
    /\ forall k l, info !! k = Some (VList l) -> l = [].
Proof.
  intros He Hc Hr. rewrite (analyze_file_exists _ _ _ _ He).
  unfold read_file, text_of, self_of, printed_of. rewrite Hc, Hr.
  cbn [fst snd]. eexists. split; [reflexivity|].
  rewrite !file_record_base by (unfold base_fields; set_solver).
  repeat split; try reflexivity.
  intros k l. unfold file_record, update.
  destruct extract_nothing_from_empty as (-> & -> & ->).
  assert (Hbase : forall a b c d,
             ({[ "path" := VStr a; "type" := VStr b; "lines" := VInt c;
                 "size" := VInt d ]} : gmap string value) !! k
             = Some (VList l) -> l = []).
  { intros a b c d H.
    repeat (apply lookup_insert_Some in H as [[_ H]|[_ H]];
            [discriminate|]).
    apply lookup_singleton_Some in H as [_ H]. discriminate. }
  assert (Hlists : forall a b c,
             ({[ a := VList []; b := VList []; c := VList [] ]}
              : gmap string value) !! k = Some (VList l) -> l = []).
  { intros a b c H.
    repeat (apply lookup_insert_Some in H as [[_ H]|[_ H]];
            [now injection H|]).
    apply lookup_singleton_Some in H as [_ H]. now injection H. }
  destruct (str_in _ recognized); [|apply Hbase].
  destruct (String.eqb _ "py").
  { intros [H|[_ H]]%lookup_union_Some_raw; eauto. }
  destruct (str_in _ _).
  { intros [H|[_ H]]%lookup_union_Some_raw; eauto. }
  destruct (String.eqb _ "js"); [|apply Hbase].
  intros [H|[_ H]]%lookup_union_Some_raw; eauto.
Qed.

End AnalyzeFileFacts.


Lemma analyze_file_again_witness :
  exists info self1,
    analyze_file Sample.analyzer Sample.disk "/proj/main.py" None
    = (Ok info, self1, [])
    /\ analyze_file self1 Sample.disk_later "/proj/main.py" None
       = (Ok info, self1, []).
Proof.
  eexists _, _. split; [reflexivity|].
  apply (analyze_file_again Sample.analyzer Sample.disk Sample.disk_later
           "/proj/main.py" _ _ []); [reflexivity| |reflexivity].
  right. now exists "import os".
Defined.

Lemma analyze_file_unreadable_witness :
  exists info,
    analyze_file Sample.analyzer Sample.disk "/proj/notes.xyz" None
    = (Ok info, Sample.analyzer,
       ["[bold red]Error reading file /proj/notes.xyz: "
        +:+ "[Errno 2] No such file or directory[/bold red]"])
    /\ info !! "lines" = Some (VInt 1)
    /\ info !! "size" = Some (VInt 0).
Proof.
  destruct (analyze_file_unreadable Sample.analyzer Sample.disk
              "/proj/notes.xyz" "[Errno 2] No such file or directory"
              eq_refl eq_refl eq_refl) as (info & H1 & H2 & H3 & _).
  exists info. auto.
Defined.

(* ===================================================================== *)
(** ** [_extract_code] *)
(* ===================================================================== *)

Section StripFacts.

Lemma lstrip_stops s : stops Text.is_space (Text.lstrip s) = true.
Proof.
  induction s as [|c s IH]; [reflexivity|]. simpl.
  destruct (Text.is_space c) eqn:Hc; [exact IH|]. simpl. now rewrite Hc.
Qed.

Lemma lstrip_id s : stops Text.is_space s = true -> Text.lstrip s = s.
Proof.
  destruct s as [|c s]; [reflexivity|]. simpl.
  now intros ->%negb_true_iff.
Qed.

Lemma rstrip_idem s : Text.rstrip (Text.rstrip s) = Text.rstrip s.
Proof.
  induction s as [|c s IH]; [reflexivity|]. cbn [Text.rstrip].
  destruct (Text.rstrip s) as [|a r] eqn:Hr.
  - destruct (Text.is_space c) eqn:Hc; [reflexivity|].
    simpl. now rewrite Hc.
  - change (Text.rstrip (String c (String a r)))
      with (match Text.rstrip (String a r) with
            | EmptyString =>
                if Text.is_space c then EmptyString
                else String c EmptyString
            | r' => String c r'
            end).
    now rewrite IH.
Qed.

Lemma rstrip_stops s :
  stops Text.is_space s = true -> stops Text.is_space (Text.rstrip s) = true.
Proof.
  destruct s as [|c s]; [reflexivity|]. cbn [Text.rstrip stops].
  intros Hc. destruct (Text.rstrip s).
  - apply negb_true_iff in Hc. rewrite Hc. simpl. now rewrite Hc.
  - exact Hc.
Qed.

Lemma strip_stops s : stops Text.is_space (Text.strip s) = true.
Proof. apply rstrip_stops, lstrip_stops. Qed.

Lemma strip_idem s : Text.strip (Text.strip s) = Text.strip s.
Proof.
  unfold Text.strip at 1. rewrite (lstrip_id _ (strip_stops s)).
  unfold Text.strip. apply rstrip_idem.
Qed.

End StripFacts.

Section ExtractCode.
Import CodeGenerator.

(** X12: whatever the response, the code returned starts with no white
    space and ends with none: stripping it again changes nothing. *)
Theorem extract_code_stripped response :
  Text.strip (_extract_code response) = _extract_code response
  /\ stops Text.is_space (_extract_code response) = true.
Proof.
  unfold _extract_code.
  destruct (findall1 code_block_pattern response);
    split; auto using strip_idem, strip_stops.
Qed.

Lemma code_block_needs_backtick c :
  stops (fun a => Ascii.eqb a backtick) (cur_rest c) = true ->
  match_at code_block_pattern c = None.
Proof.
  intros H. unfold match_at, code_block_pattern. rewrite !run_seq.
  destruct (cur_rest c) as [|a rest] eqn:Hc.
  - apply (run_str_end backtick _ c _ _ Hc).
  - simpl in H. apply negb_true_iff in H.
    apply (run_str_mismatch backtick _ c _ _ a rest Hc H).
Qed.

Lemma no_backtick_stops s :
  Text.contains backtick s = false ->
  stops (fun a => Ascii.eqb a backtick) s = true.
Proof.
  destruct s as [|a s]; [reflexivity|]. simpl.
  intros [-> _]%orb_false_elim. reflexivity.
Qed.

(** The scan walks over a text without backticks and finds nothing. *)
Lemma scan_over_plain pre : forall c rest fuel,
  Text.contains backtick pre = false ->
  cur_rest c = pre +:+ rest ->
  scan (String.length pre + fuel) code_block_pattern c
  = scan fuel code_block_pattern (after pre c).
Proof.
  induction pre as [|a pre IH]; intros c rest fuel Hpre Hc; [reflexivity|].
  rewrite str_app_cons in Hc. simpl in Hpre.
  apply orb_false_elim in Hpre as [Ha Hpre].
  cbn [String.length Nat.add after].
  rewrite (scan_skip code_block_pattern c (String.length pre + fuel) a
             (pre +:+ rest)); [| |exact Hc].
  - apply (IH _ rest); [exact Hpre|]. now apply (advance_rest c a).
  - apply code_block_needs_backtick. rewrite Hc. simpl. now rewrite Ha.
Qed.

(** X13: a response without a backtick has no code block; the whole
    response is returned, stripped. *)
Theorem extract_code_plain response :
  Text.contains backtick response = false ->
  _extract_code response = Text.strip response.
Proof.
  intros H. unfold _extract_code, findall1, finditer.
  replace (S (String.length response))
    with (String.length response + 1)%nat by lia.
  rewrite (scan_over_plain response (start response) EmptyString 1 H)
    by (simpl; now rewrite str_app_nil_r).
  rewrite scan_at_end; [reflexivity| |].
  - apply (after_rest response (start response) EmptyString).
    simpl. now rewrite str_app_nil_r.
  - apply code_block_needs_backtick.
    rewrite (after_rest response (start response) EmptyString);
      [reflexivity|]. simpl. now rewrite str_app_nil_r.
Qed.

End ExtractCode.

Lemma extract_code_plain_witness :
  CodeGenerator._extract_code "  def f(): pass  " = "def f(): pass".
Proof.
  exact (extract_code_plain "  def f(): pass  " eq_refl).
Defined.

Section LazySteps.
Context {R : Type}.
Implicit Types (c : cursor) (g : gmap nat string)
  (k : cursor -> gmap nat string -> option R) (u rest : string) (x : R).

Lemma star_loop_lazy_O body k c g :
  star_loop body false k O c g = orelse (k c g) (fun _ => None).
Proof. reflexivity. Qed.

Lemma star_loop_lazy_S body k fuel c g :
  star_loop body false k (S fuel) c g
  = orelse (k c g)
      (fun _ =>
         body c g (fun c' g' =>
           if Nat.ltb (cur_pos c) (cur_pos c')
           then star_loop body false k fuel c' g' else None)).
Proof. reflexivity. Qed.

(** A lazy repetition of a class stops at the first place where what
    follows matches. *)
Lemma star_loop_lazy cl u : forall fuel c rest g k x,
  cur_rest c = u +:+ rest ->
  all_in (cls_match cl) u = true ->
  (forall v w, u = v +:+ w -> Text.nonempty w = true ->
               k (after v c) g = None) ->
  String.length u <= fuel ->
  k (after u c) g = Some x ->
  star_loop (run (Chr cl)) false k fuel c g = Some x.
Proof.
  induction u as [|a u IH]; intros fuel c rest g k x Hc Hu Hnot Hfuel Hk.
  - simpl in Hk. destruct fuel; [rewrite star_loop_lazy_O|
                                 rewrite star_loop_lazy_S];
      now rewrite Hk.
  - rewrite str_app_cons in Hc. simpl in Hu, Hfuel, Hk.
    apply andb_prop in Hu as [Ha Hu].
    destruct fuel as [|fuel]; [lia|].
    rewrite star_loop_lazy_S.
    pose proof (Hnot EmptyString (String a u) eq_refl eq_refl) as Hhere.
    change (after EmptyString c) with c in Hhere.
    rewrite Hhere. cbn [orelse].
    rewrite (run_chr cl c g _ a _ Hc Ha), (advance_pos c a _ Hc).
    replace (Nat.ltb (cur_pos c) (S (cur_pos c))) with true
      by (symmetry; apply Nat.ltb_lt; lia).
    apply (IH fuel (advance c) rest); auto; [| |lia].
    + now apply (advance_rest c a).
    + intros v w Huvw Hw. apply (Hnot (String a v) w); [|exact Hw].
      rewrite str_app_cons. now f_equal.
Qed.

Lemma run_group n r c g k :
  run (Group n r) c g k
  = run r c g (fun c' g' =>
      k c' (<[n := Text.take (cur_pos c' - cur_pos c) (cur_rest c)]> g')).
Proof. reflexivity. Qed.

Lemma run_star greedy r c g k :
  run (Star greedy r) c g k
  = star_loop (run r) greedy k (String.length (cur_rest c)) c g.
Proof. reflexivity. Qed.

(** An optional greedy run of a class. *)
Lemma run_opt_plus_greedy cl u c rest g k x :
  cur_rest c = u +:+ rest ->
  all_in (cls_match cl) u = true -> stops (cls_match cl) rest = true ->
  k (after u c) g = Some x ->
  run (Opt (Plus true (Chr cl))) c g k = Some x.
Proof.
  intros Hc Hu Hrest Hk. unfold Opt. destruct u as [|a u].
  - rewrite str_app_nil_l in Hc. rewrite run_alt_r; [exact Hk|].
    unfold Plus. rewrite run_seq. apply run_chr_stops. now rewrite Hc.
  - apply run_alt_l. now apply (run_plus_greedy cl (String a u) c rest).
Qed.

End LazySteps.

Section ExtractFenced.
Import CodeGenerator.

Lemma all_in_any u : all_in (cls_match (NoneOf [])) u = true.
Proof. induction u as [|a u IH]; [reflexivity|exact IH]. Qed.

Lemma contains_app_false c x y :
  Text.contains c (x +:+ y) = false ->
  Text.contains c x = false /\ Text.contains c y = false.
Proof. rewrite contains_app. apply orb_false_elim. Qed.

Lemma code_block_match lang code post c :
  all_in Text.is_word lang = true ->
  Text.contains backtick code = false ->
  cur_rest c = fence +:+ lang +:+ Text.nl +:+ code +:+ fence +:+ post ->
  exists m,
    match_at code_block_pattern c = Some m
    /\ group m 1 = Some code
    /\ cur_pos c < cur_pos (m_end m).
Proof.
  intros Hlang Hcode Hc.
  set (c1 := after fence c). set (c2 := after lang c1).
  set (c3 := after Text.nl c2). set (c4 := after code c3).
  set (c5 := after fence c4).
  pose proof (after_rest _ _ _ Hc) as H1. fold c1 in H1.
  pose proof (after_rest _ _ _ H1) as H2. fold c2 in H2.
  pose proof (after_rest _ _ _ H2) as H3. fold c3 in H3.
  pose proof (after_rest _ _ _ H3) as H4. fold c4 in H4.
  pose proof (after_rest _ _ _ H4) as H5. fold c5 in H5.
  exists (Match c5 (<[1 := code]> ∅)).
  split; [|split; [apply lookup_insert_eq|]].
  - unfold match_at, code_block_pattern. rewrite !run_seq.
    rewrite (run_str _ _ _ _ _ Hc). fold c1.
    apply (run_opt_plus_greedy Word lang c1 _ _ _ _ H1 Hlang);
      [reflexivity|].
    fold c2. rewrite (run_chr (Lit Text.newline) c2 _ _ Text.newline _
                        H2 eq_refl).
    change (advance c2) with c3. rewrite run_group, run_star.
    apply (star_loop_lazy (NoneOf []) code _ c3 (fence +:+ post));
      [exact H3|apply all_in_any| | |].
    + intros v w Hvw Hw. subst code.
      apply contains_app_false in Hcode as [_ Hw'].
      destruct w as [|a w]; [discriminate|]. simpl in Hw'.
      apply orb_false_elim in Hw' as [Ha _].
      rewrite str_app_assoc in H3.
      pose proof (after_rest v c3 _ H3) as Hv.
      rewrite str_app_cons in Hv.
      apply (run_str_mismatch backtick _ _ _ _ a _ Hv Ha).
    + rewrite H3, str_length_app. lia.
    + fold c4. rewrite (run_str _ _ _ _ _ H4). fold c5.
      unfold c4. rewrite (after_pos _ _ _ H3), H3.
      replace (cur_pos c3 + String.length code - cur_pos c3)%nat
        with (String.length code) by lia.
      now rewrite take_app.
  - cbn [m_end]. unfold c5. rewrite (after_pos _ _ _ H4).
    unfold c4. rewrite (after_pos _ _ _ H3).
    unfold c3. rewrite (after_pos _ _ _ H2).
    unfold c2. rewrite (after_pos _ _ _ H1).
    unfold c1. rewrite (after_pos _ _ _ Hc). simpl. lia.
Qed.

(** X14: when the text before the first fence has no backtick, the
    fence carries a language tag of word characters (or none) and the
    code has no backtick, the code of that block is returned, stripped,
    whatever follows the block. *)
Theorem extract_code_fenced pre lang code post :
  Text.contains backtick pre = false ->
  all_in Text.is_word lang = true ->
  Text.contains backtick code = false ->
  _extract_code (fenced pre lang code post) = Text.strip code.
Proof.
  intros Hpre Hlang Hcode. unfold _extract_code, findall1, finditer, fenced.
  set (block := fence +:+ lang +:+ Text.nl +:+ code +:+ fence +:+ post).
  replace (S (String.length (pre +:+ block)))
    with (String.length pre + S (String.length block))%nat
    by (rewrite str_length_app; lia).
  rewrite (scan_over_plain pre (start (pre +:+ block)) block _ Hpre eq_refl).
  destruct (code_block_match lang code post
              (after pre (start (pre +:+ block))) Hlang Hcode)
    as (m & Hm & Hg & Hpos).
  { now apply (after_rest pre). }
  rewrite (scan_match _ _ _ m Hm Hpos). cbn [map]. now rewrite Hg.
Qed.

End ExtractFenced.

Lemma extract_code_fenced_witness :
  CodeGenerator._extract_code
    (fenced "Here you go: " "python"
       ("  print(1)" +:+ Text.nl) " Enjoy.")
  = "print(1)".
Proof.
  exact (extract_code_fenced "Here you go: " "python"
           ("  print(1)" +:+ Text.nl) " Enjoy." eq_refl eq_refl eq_refl).
Defined.

(* ===================================================================== *)
(** ** What a match can hold *)
(* ===================================================================== *)

Section MatchSoundness.
Context {R : Type}.
Implicit Types (c : cursor) (g : gmap nat string)
  (k : cursor -> gmap nat string -> option R) (x : R).

Lemma star_loop_keeps body greedy k own :
  keeps_groups body own ->
  forall fuel c g x,
    star_loop body greedy k fuel c g = Some x ->
    exists c' g', k c' g' = Some x
                  /\ forall n, ~ In n own -> g' !! n = g !! n.
Proof.
  intros Hbody fuel. induction fuel as [|fuel IH]; intros c g x Hx.
  - simpl in Hx. destruct greedy; simpl in Hx.
    + exists c, g. auto.
    + destruct (k c g) eqn:Hk; simpl in Hx; [|discriminate].
      exists c, g. split; [congruence|auto].
  - simpl in Hx.
    assert (Hagain : forall y,
               body c g (fun c' g' =>
                 if Nat.ltb (cur_pos c) (cur_pos c')
                 then star_loop body greedy k fuel c' g' else None)
               = Some y ->
               exists c' g', k c' g' = Some y
                             /\ forall n, ~ In n own -> g' !! n = g !! n).
    { intros y Hy. apply Hbody in Hy as (c1 & g1 & Hy & Hg1).
      destruct (Nat.ltb _ _); [|discriminate].
      apply IH in Hy as (c2 & g2 & Hy & Hg2).
      exists c2, g2. split; [exact Hy|].
      intros n Hn. now rewrite Hg2, Hg1. }
    destruct greedy; unfold orelse in Hx.
    + destruct (body c g _) eqn:Hb.
      * injection Hx as <-. now apply Hagain.
      * exists c, g. auto.
    + destruct (k c g) eqn:Hk.
      * exists c, g. split; [congruence|auto].
      * now apply Hagain.
Qed.

Lemma run_keeps_groups (r : regex) : keeps_groups (@run R r) (captures r).
Proof.
  induction r as [|cl|s|r1 IH1 r2 IH2|r1 IH1 r2 IH2|greedy r1 IH1|n r1 IH1| |];
    intros c g k x Hx; simpl in Hx.
  - exists c, g. auto.
  - destruct (cur_rest c) as [|a rest]; [discriminate|].
    destruct (cls_match cl a); [|discriminate]. exists (advance c), g. auto.
  - destruct (eat s c) as [c'|]; [|discriminate]. exists c', g. auto.
  - apply IH1 in Hx as (c1 & g1 & Hx & Hg1).
    apply IH2 in Hx as (c2 & g2 & Hx & Hg2).
    exists c2, g2. split; [exact Hx|]. intros n Hn. cbn [captures] in Hn.
    rewrite Hg2, Hg1; auto; intros Hin; apply Hn, in_or_app; auto.
  - unfold orelse in Hx. cbn [captures]. destruct (run r1 c g k) eqn:H1.
    + injection Hx as <-. apply (IH1 c g k) in H1 as (c1 & g1 & H1 & Hg1).
      exists c1, g1. split; [exact H1|]. intros n Hn. apply Hg1.
      intros Hin. apply Hn, in_or_app. auto.
    + apply (IH2 c g k) in Hx as (c1 & g1 & H2 & Hg1).
      exists c1, g1. split; [exact H2|]. intros n Hn. apply Hg1.
      intros Hin. apply Hn, in_or_app. auto.
  - now apply (star_loop_keeps (run r1) greedy k (captures r1) IH1) in Hx.
  - apply IH1 in Hx as (c1 & g1 & Hx & Hg1). eexists _, _.
    split; [exact Hx|]. intros m Hm. cbn [captures] in Hm.
    rewrite lookup_insert_ne by (intros ->; apply Hm; now left).
    apply Hg1. intros Hin. apply Hm. now right.
  - destruct (at_bol c); [|discriminate]. exists c, g. auto.
  - destruct (at_eol c); [|discriminate]. exists c, g. auto.
Qed.

(** What a repetition of a class consumes is made of the class. *)
Lemma star_loop_chr_sound cl greedy k : forall fuel c g x,
  star_loop (run (Chr cl)) greedy k fuel c g = Some x ->
  exists u rest,
    cur_rest c = u +:+ rest /\ all_in (cls_match cl) u = true
    /\ k (after u c) g = Some x.
Proof.
  induction fuel as [|fuel IH]; intros c g x Hx.
  - exists EmptyString, (cur_rest c). repeat split.
    change (k c g = Some x).
    simpl in Hx. destruct greedy; simpl in Hx; [exact Hx|].
    destruct (k c g) eqn:Hk; simpl in Hx; [congruence|discriminate].
  - assert (Hagain : forall y,
               run (Chr cl) c g (fun c' g' =>
                 if Nat.ltb (cur_pos c) (cur_pos c')
                 then star_loop (run (Chr cl)) greedy k fuel c' g'
                 else None) = Some y ->
               exists u rest,
                 cur_rest c = u +:+ rest /\ all_in (cls_match cl) u = true
                 /\ k (after u c) g = Some y).
    { intros y Hy. cbn [run] in Hy.
      destruct (cur_rest c) as [|a rest] eqn:Hc; [discriminate|].
      destruct (cls_match cl a) eqn:Ha; [|discriminate].
      destruct (Nat.ltb _ _); [|discriminate].
      apply IH in Hy as (u & rest' & Hrest & Hu & Hy).
      rewrite (advance_rest c a rest Hc) in Hrest.
      exists (String a u), rest'. rewrite str_app_cons, Hrest.
      repeat split; [|exact Hy]. simpl. now rewrite Ha, Hu. }
    cbn [star_loop] in Hx. destruct greedy; unfold orelse in Hx.
    + destruct (run (Chr cl) c g _) eqn:Hb.
      * injection Hx as <-. now apply Hagain.
      * exists EmptyString, (cur_rest c). now repeat split.
    + destruct (k c g) eqn:Hk.
      * exists EmptyString, (cur_rest c). repeat split.
        change (k c g = Some x). congruence.
      * now apply Hagain.
Qed.

(** A group around a non-empty repetition of a class holds a name of
    the class. *)
Lemma run_group_plus_sound n greedy cl c g k x :
  run (Group n (Plus greedy (Chr cl))) c g k = Some x ->
  exists u c',
    name_of cl u = true /\ k c' (<[n := u]> g) = Some x.
Proof.
  intros Hx. rewrite run_group in Hx. unfold Plus in Hx.
  rewrite run_seq in Hx. cbn [run] in Hx.
  destruct (cur_rest c) as [|a rest] eqn:Hc; [discriminate|].
  destruct (cls_match cl a) eqn:Ha; [|discriminate].
  apply star_loop_chr_sound in Hx as (u & rest' & Hrest & Hu & Hx).
  rewrite (advance_rest c a rest Hc) in Hrest.
  assert (Hpos : cur_pos (after u (advance c))
                 = (cur_pos c + String.length (String a u))%nat).
  { rewrite (after_pos u (advance c) rest'),
      (advance_pos c a rest Hc); simpl; [lia|].
    now rewrite (advance_rest c a rest Hc). }
  rewrite Hpos in Hx.
  replace (cur_pos c + String.length (String a u) - cur_pos c)%nat
    with (String.length (String a u)) in Hx by lia.
  rewrite Hrest, <- str_app_cons, take_app in Hx.
  exists (String a u), (after u (advance c)). split; [|exact Hx].
  unfold name_of. simpl. now rewrite Ha, Hu.
Qed.

End MatchSoundness.

Section ScanAll.

(** What holds for every match of a pattern holds for all that
    [finditer] returns. *)
Lemma scan_Forall (P : rmatch -> Prop) r :
  (forall c m, match_at r c = Some m -> P m) ->
  forall fuel c, Forall P (scan fuel r c).
Proof.
  intros HP fuel. induction fuel as [|fuel IH]; intros c; [constructor|].
  simpl. destruct (match_at r c) as [m|] eqn:Hm.
  - constructor; [now apply (HP c)|].
    destruct (Nat.ltb _ _); [apply IH|].
    destruct (cur_rest c); [constructor|apply IH].
  - destruct (cur_rest c); [constructor|apply IH].
Qed.

(** A pattern that ends in a group around a repetition of a class:
    group [n] of every match is a name of the class. *)
Lemma group_last_sound r n greedy cl c m :
  match_at (Seq r (Group n (Plus greedy (Chr cl)))) c = Some m ->
  exists u, group m n = Some u /\ name_of cl u = true.
Proof.
  unfold match_at. rewrite run_seq. intros H.
  apply run_keeps_groups in H as (c1 & g1 & H & _).
  apply run_group_plus_sound in H as (u & c2 & Hu & [= <-]).
  exists u. split; [apply lookup_insert_eq|exact Hu].
Qed.

(** The same when the group is followed by a part without groups. *)
Lemma group_inner_sound r n greedy cl tail c m :
  ~ In n (captures tail) ->
  match_at (Seq (Seq r (Group n (Plus greedy (Chr cl)))) tail) c = Some m ->
  exists u, group m n = Some u /\ name_of cl u = true.
Proof.
  unfold match_at. rewrite !run_seq. intros Hn H.
  apply run_keeps_groups in H as (c1 & g1 & H & _).
  apply run_group_plus_sound in H as (u & c2 & Hu & H).
  apply run_keeps_groups in H as (c3 & g3 & [= <-] & Hg).
  exists u. split; [|exact Hu]. unfold group. cbn [m_groups].
  rewrite (Hg n Hn). apply lookup_insert_eq.
Qed.

End ScanAll.

(* ===================================================================== *)
(** ** The names the extractors report *)
(* ===================================================================== *)

Section ReportedNames.

Lemma finditer_groups r n cl :
  (forall c m, match_at r c = Some m ->
               exists u, group m n = Some u /\ name_of cl u = true) ->
  forall content,
    Forall (fun s => name_of cl s = true)
      (map (fun m => group_str m n) (finditer r content)).
Proof.
  intros Hr content. apply Forall_map. unfold finditer.
  apply (scan_Forall _ r).
  intros c m Hm. destruct (Hr c m Hm) as (u & Hg & Hu).
  unfold group_str. now rewrite Hg.
Qed.

Lemma match_groups_outside r n c m :
  match_at r c = Some m -> ~ In n (captures r) -> group m n = None.
Proof.
  unfold match_at. intros H Hn.
  apply run_keeps_groups in H as (c1 & g1 & [= <-] & Hg).
  unfold group. cbn [m_groups]. now rewrite (Hg n Hn).
Qed.

Lemma match_at_alt r1 r2 c m :
  match_at (Alt r1 r2) c = Some m ->
  match_at r1 c = Some m \/ match_at r2 c = Some m.
Proof.
  unfold match_at. cbn [run]. unfold orelse.
  destruct (run r1 c ∅ _); [now left|now right].
Qed.

Lemma python_functions_lookup content :
  _analyze_python content !! "functions"
  = Some (VList (map (fun m => group_str m 1)
                   (finditer Python.function_pattern content))).
Proof.
  unfold _analyze_python.
  rewrite lookup_insert_ne by discriminate. apply lookup_insert_eq.
Qed.

Lemma python_classes_lookup content :
  _analyze_python content !! "classes"
  = Some (VList (map (fun m => group_str m 1)
                   (finditer Python.class_pattern content))).
Proof. unfold _analyze_python. apply lookup_insert_eq. Qed.

(** X15: whatever the text, every function name the Python extractor
    reports is not empty and holds no white space and no opening
    parenthesis, and every class name is not empty and holds no white
    space, colon or opening parenthesis. *)
Theorem python_names_well_formed content :
  exists functions classes,
    _analyze_python content !! "functions" = Some (VList functions)
    /\ _analyze_python content !! "classes" = Some (VList classes)
    /\ Forall (fun s => name_of (NoneOf [ASpace; ALit "("]) s = true)
         functions
    /\ Forall (fun s => name_of (NoneOf [ASpace; ALit ":"; ALit "("]) s
                        = true) classes.
Proof.
  eexists _, _.
  split; [apply python_functions_lookup|].
  split; [apply python_classes_lookup|]. split.
  - apply finditer_groups. intros c m. apply group_last_sound.
  - apply finditer_groups. intros c m. apply group_last_sound.
Qed.

Lemma c_function_groups c m :
  match_at C.function_pattern c = Some m ->
  exists u, group m 2 = Some u /\ name_of Word u = true.
Proof.
  apply (group_inner_sound (Group 1 word1 ⋅ spaces1) 2 true Word
           (Seq spaces0
              (Seq (Chr (Lit "("))
                 (Seq (Star true (Chr (NoneOf [ALit ")"])))
                    (Seq (Chr (Lit ")")) (Seq spaces0 (Chr (Lit "{")))))))).
  simpl. tauto.
Qed.

Lemma c_includes_lookup content :
  _analyze_c_cpp content !! "includes"
  = Some (VList (map (fun m => group_str m 1)
                   (finditer C.include_pattern content))).
Proof.
  unfold _analyze_c_cpp.
  rewrite !lookup_insert_ne by discriminate. apply lookup_insert_eq.
Qed.

(** X16: whatever the text, every function name the C extractor reports
    is a non-empty run of word characters, and every header name it
    reports is not empty and holds neither [>] nor a double quote. *)
Theorem c_names_well_formed content :
  exists functions includes,
    _analyze_c_cpp content !! "functions" = Some (VList functions)
    /\ _analyze_c_cpp content !! "includes" = Some (VList includes)
    /\ Forall (fun s => name_of Word s = true) functions
    /\ Forall (fun s => name_of (NoneOf [ALit ">"; ALit dquote]) s = true)
         includes.
Proof.
  eexists _, _.
  split; [apply c_functions_lookup|].
  split; [apply c_includes_lookup|]. split.
  - rewrite function_steps. cbn [app]. apply Forall_map.
    apply List.Forall_forall. intros m [Hm _]%List.filter_In.
    pose proof (scan_Forall _ C.function_pattern c_function_groups
                  (S (String.length content)) (start content)) as Hall.
    rewrite List.Forall_forall in Hall.
    destruct (Hall m Hm) as (u & Hg & Hu).
    unfold group_str. now rewrite Hg.
  - apply finditer_groups. intros c m.
    apply (group_inner_sound
             (Str "#include" ⋅ spaces1 ⋅ Chr (OneOf [ALit "<"; ALit dquote]))
             1 true (NoneOf [ALit ">"; ALit dquote])
             (Chr (OneOf [ALit ">"; ALit dquote]))).
    simpl. tauto.
Qed.

Lemma js_function_step_word c m :
  match_at JavaScript.function_pattern c = Some m ->
  exists u, name_of Word u = true
            /\ forall acc, JavaScript.function_step acc m = acc ++ [u].
Proof.
  intros [H|H]%match_at_alt.
  - destruct (group_last_sound (Str "function" ⋅ spaces1) 1 true Word c m H)
      as (u & Hg & Hu).
    exists u. split; [exact Hu|]. intros acc.
    unfold JavaScript.function_step, group_truthy. rewrite Hg.
    apply andb_prop in Hu as [Hne _]. cbv zeta.
    rewrite Hne. cbv iota. now rewrite Hne.
  - pose proof (match_groups_outside _ 1 c m H) as H1.
    destruct (group_inner_sound Eps 2 true Word
                (Seq spaces0
                   (Seq (Chr (Lit "="))
                      (Seq spaces0 (Str "function")))) c m)
      as (u & Hg & Hu); [simpl; tauto|exact H|].
    exists u. split; [exact Hu|]. intros acc.
    unfold JavaScript.function_step, group_truthy.
    rewrite H1 by (simpl; intros [Heq|[]]; discriminate).
    apply andb_prop in Hu as [Hne _]. cbv zeta. rewrite Hg.
    cbv iota. now rewrite Hne.
Qed.

Lemma js_lookups content :
  _analyze_javascript content !! "functions"
  = Some (VList (fold_left JavaScript.function_step
                   (finditer JavaScript.function_pattern content) []))
  /\ _analyze_javascript content !! "classes"
     = Some (VList (map (fun m => group_str m 1)
                      (finditer JavaScript.class_pattern content)))
  /\ _analyze_javascript content !! "imports"
     = Some (VList (map (fun m => group_str m 2)
                      (finditer JavaScript.import_pattern content))).
Proof.
  unfold _analyze_javascript. split; [|split].
  - rewrite lookup_insert_ne by discriminate. apply lookup_insert_eq.
  - apply lookup_insert_eq.
  - rewrite !lookup_insert_ne by discriminate. apply lookup_insert_eq.
Qed.

(** X17: whatever the text, the JavaScript extractor reports one
    function name for every match of its function pattern, each a
    non-empty run of word characters; its class names are such runs
    too, and every module path it reports is not empty and holds no
    quote. *)
Theorem javascript_names_well_formed content :
  exists functions classes imports,
    _analyze_javascript content !! "functions" = Some (VList functions)
    /\ _analyze_javascript content !! "classes" = Some (VList classes)
    /\ _analyze_javascript content !! "imports" = Some (VList imports)
    /\ length functions
       = length (finditer JavaScript.function_pattern content)
    /\ Forall (fun s => name_of Word s = true) functions
    /\ Forall (fun s => name_of Word s = true) classes
    /\ Forall (fun s => name_of (NoneOf [ALit squote; ALit dquote]) s
                        = true) imports.
Proof.
  destruct (js_lookups content) as (Hf & Hc & Hi).
  eexists _, _, _.
  split; [exact Hf|]. split; [exact Hc|]. split; [exact Hi|].
  assert (Hfun : forall ms acc,
             Forall (fun m => exists u, name_of Word u = true
                              /\ forall acc,
                                   JavaScript.function_step acc m
                                   = acc ++ [u]) ms ->
             Forall (fun s => name_of Word s = true) acc ->
             length (fold_left JavaScript.function_step ms acc)
             = (length acc + length ms)%nat
             /\ Forall (fun s => name_of Word s = true)
                  (fold_left JavaScript.function_step ms acc)).
  { induction ms as [|m ms IH]; intros acc Hms Hacc.
    - simpl. split; [lia|exact Hacc].
    - inversion Hms as [|m' ms' (u & Hu & Hstep) Hms']. subst.
      cbn [fold_left]. rewrite Hstep.
      destruct (IH (acc ++ [u]) Hms') as [Hl Hall].
      { apply Forall_app. split; [exact Hacc|now constructor]. }
      split; [|exact Hall]. rewrite Hl, length_app. simpl. lia. }
  destruct (Hfun (finditer JavaScript.function_pattern content) [])
    as [Hl Hall]; [|constructor|].
  { apply (scan_Forall _ _ js_function_step_word). }
  split; [exact Hl|]. split; [exact Hall|]. split.
  - apply finditer_groups. intros c m. apply group_last_sound.
  - apply finditer_groups. intros c m.
    apply (group_inner_sound
             (Group 1 (Alt (Str "import") (Str "require")) ⋅ spaces1
              ⋅ Plus false (Chr Dot)
              ⋅ Chr (OneOf [ALit squote; ALit dquote]))
             2 true (NoneOf [ALit squote; ALit dquote])
             (Chr (OneOf [ALit squote; ALit dquote]))).
    simpl. tauto.
Qed.

End ReportedNames.

(* ===================================================================== *)
(** ** The Python extractor on whole lines *)
(* ===================================================================== *)

Section HeaderLines.
Variable kw : string.
Variable cl : cls.
Hypothesis kw_nonempty : Text.nonempty kw = true.
Hypothesis kw_line : Text.contains Text.newline kw = false.
Hypothesis cl_no_space :
  forall a, cls_match cl a = true -> Text.is_space a = false.

(** [^kw\s+(cl+)], the shape of the function and the class pattern. *)
Let pattern : regex :=
  (Bol ⋅ Str kw ⋅ spaces1 ⋅ Group 1 (Plus true (Chr cl)))%re.

Lemma header_needs_bol c :
  at_bol c = false -> match_at pattern c = None.
Proof.
  intros H. unfold match_at, pattern. rewrite !run_seq.
  now apply run_bol_not.
Qed.

Lemma eat_none s : forall c,
  Text.starts_with s (cur_rest c) = false -> eat s c = None.
Proof.
  induction s as [|a s IH]; intros c H; [discriminate|].
  simpl in *. destruct (cur_rest c) as [|b rest] eqn:Hc; [reflexivity|].
  rewrite Ascii.eqb_sym. destruct (Ascii.eqb a b); [|reflexivity].
  apply IH. now rewrite (advance_rest c b rest Hc).
Qed.

Lemma header_needs_keyword c :
  Text.starts_with kw (cur_rest c) = false -> match_at pattern c = None.
Proof.
  intros H. unfold match_at, pattern. rewrite !run_seq.
  destruct (at_bol c) eqn:Hb; [|now apply run_bol_not].
  rewrite (run_bol _ _ _ Hb). cbn [run]. now rewrite (eat_none kw c H).
Qed.

(** A keyword that does not start a line does not start the line with
    what follows it either. *)
Lemma starts_with_line s : forall t rest,
  Text.contains Text.newline s = false ->
  Text.starts_with s t = false ->
  Text.starts_with s (t +:+ Text.nl +:+ rest) = false.
Proof.
  induction s as [|a s IH]; intros t rest Hs Ht; [discriminate|].
  simpl in Hs. apply orb_false_elim in Hs as [Ha Hs].
  destruct t as [|b t].
  - change (EmptyString +:+ Text.nl +:+ rest)
      with (String Text.newline rest).
    simpl. now rewrite Ha.
  - rewrite str_app_cons. simpl in *.
    destruct (Ascii.eqb a b); [|reflexivity]. now apply IH.
Qed.

Lemma at_bol_advance c a rest :
  cur_rest c = String a rest ->
  at_bol (advance c) = Ascii.eqb a Text.newline.
Proof. intros H. unfold advance, at_bol. now rewrite H. Qed.

(** Inside a line nothing matches: the scan runs on to the next line. *)
Lemma scan_within u : forall c rest fuel,
  same_line u = true -> at_bol c = false ->
  cur_rest c = u +:+ Text.nl +:+ rest ->
  scan (String.length u + S fuel) pattern c
  = scan fuel pattern (advance (after u c))
  /\ at_bol (advance (after u c)) = true
  /\ cur_rest (advance (after u c)) = rest.
Proof.
  induction u as [|a u IH]; intros c rest fuel Hu Hb Hc.
  - change (EmptyString +:+ Text.nl +:+ rest)
      with (String Text.newline rest) in Hc.
    cbn [String.length Nat.add after].
    rewrite (scan_skip _ _ _ _ _ (header_needs_bol c Hb) Hc).
    rewrite (at_bol_advance c _ _ Hc), (advance_rest c _ _ Hc).
    now repeat split.
  - rewrite str_app_cons in Hc. cbn [same_line all_in] in Hu.
    apply andb_prop in Hu as [Ha Hu]. apply negb_true_iff in Ha.
    cbn [String.length Nat.add after].
    rewrite (scan_skip _ _ _ _ _ (header_needs_bol c Hb) Hc).
    apply IH; [exact Hu| |now apply (advance_rest c a)].
    now rewrite (at_bol_advance c a _ Hc).
Qed.

(** From a position that matches nothing to the next line. *)
Lemma scan_to_next_line u c rest fuel :
  same_line u = true -> match_at pattern c = None ->
  cur_rest c = u +:+ Text.nl +:+ rest ->
  scan (String.length u + S fuel) pattern c
  = scan fuel pattern (advance (after u c))
  /\ at_bol (advance (after u c)) = true
  /\ cur_rest (advance (after u c)) = rest.
Proof.
  intros Hu Hnone Hc. destruct u as [|a u].
  - change (EmptyString +:+ Text.nl +:+ rest)
      with (String Text.newline rest) in Hc.
    cbn [String.length Nat.add after].
    rewrite (scan_skip _ _ _ _ _ Hnone Hc).
    rewrite (at_bol_advance c _ _ Hc), (advance_rest c _ _ Hc).
    now repeat split.
  - rewrite str_app_cons in Hc. cbn [same_line all_in] in Hu.
    apply andb_prop in Hu as [Ha Hu]. apply negb_true_iff in Ha.
    cbn [String.length Nat.add after].
    rewrite (scan_skip _ _ _ _ _ Hnone Hc).
    apply scan_within; [exact Hu| |now apply (advance_rest c a)].
    now rewrite (at_bol_advance c a _ Hc).
Qed.

Lemma at_bol_after u : forall c rest,
  Text.nonempty u = true -> same_line u = true ->
  cur_rest c = u +:+ rest -> at_bol (after u c) = false.
Proof.
  induction u as [|a u IH]; intros c rest Hne Hu Hc; [discriminate|].
  rewrite str_app_cons in Hc. cbn [same_line all_in] in Hu.
  apply andb_prop in Hu as [Ha Hu]. apply negb_true_iff in Ha.
  cbn [after]. destruct u as [|b u].
  - cbn [after]. now rewrite (at_bol_advance c a _ Hc).
  - apply (IH _ rest); [reflexivity|exact Hu|].
    now apply (advance_rest c a).
Qed.

Lemma same_line_app u v :
  same_line (u +:+ v) = same_line u && same_line v.
Proof.
  unfold same_line. induction u as [|a u IH]; [reflexivity|].
  rewrite str_app_cons. simpl. rewrite IH. now rewrite andb_assoc.
Qed.

Lemma stops_before_rest p t rest :
  stops p (t +:+ Text.nl) = true ->
  stops p (t +:+ Text.nl +:+ rest) = true.
Proof. destruct t; [exact id|]. now rewrite !str_app_cons. Qed.

Lemma header_match name tail rest c :
  at_bol c = true ->
  name_of cl name = true ->
  stops (cls_match cl) (tail +:+ Text.nl) = true ->
  cur_rest c = kw +:+ " " +:+ name +:+ tail +:+ Text.nl +:+ rest ->
  match_at pattern c
  = Some (Match (after name (after " " (after kw c))) (<[1 := name]> ∅)).
Proof.
  intros Hb [Hne Hname]%andb_prop Hstop Hc.
  pose proof (after_rest _ _ _ Hc) as H1.
  pose proof (after_rest _ _ _ H1) as H2.
  unfold match_at, pattern. rewrite !run_seq.
  rewrite (run_bol _ _ _ Hb), (run_str _ _ _ _ _ Hc).
  apply (run_plus_greedy Space " " _ _ _ _ _ H1);
    [reflexivity|reflexivity| |].
  - destruct name as [|a name]; [discriminate|]. rewrite str_app_cons.
    simpl in Hname. apply andb_prop in Hname as [Ha _].
    simpl. now rewrite (cl_no_space a Ha).
  - apply (run_group_plus 1 cl name _ _ _ _ _ H2 Hne Hname);
      [now apply stops_before_rest|reflexivity].
Qed.

Lemma scan_lines lines : forall fuel c,
  Forall (header_ok kw cl) lines -> at_bol c = true ->
  cur_rest c = text_of_lines lines ->
  String.length (cur_rest c) < fuel ->
  map (fun m => group_str m 1) (scan fuel pattern c)
  = omap snd lines.
Proof.
  induction lines as [|[text v] lines IH]; intros fuel c Hok Hb Hc Hfuel.
  - rewrite scan_at_end; [reflexivity|exact Hc|].
    apply header_needs_keyword. rewrite Hc. clear -kw_nonempty.
    destruct kw; [discriminate|reflexivity].
  - inversion Hok as [|? ? [Hline Hv] Hok']. subst.
    cbn [text_of_lines fst snd] in *.
    rewrite Hc, !str_length_app in Hfuel. cbn [String.length Text.nl] in Hfuel.
    destruct v as [name|]; cbn [omap option_bind snd].
    + destruct Hv as (tail & -> & Hname & Hstop).
      rewrite !str_app_assoc in Hc.
      rewrite !str_length_app in Hfuel. cbn [String.length] in Hfuel.
      rewrite !same_line_app in Hline.
      apply andb_prop in Hline as [_ [_ [Hlname Hltail]%andb_prop]%andb_prop].
      pose proof (header_match name tail _ c Hb Hname Hstop Hc) as Hm.
      pose proof (after_rest _ _ _ Hc) as H1.
      pose proof (after_rest _ _ _ H1) as H2.
      pose proof (after_rest _ _ _ H2) as H3.
      set (c3 := after name (after " " (after kw c))) in *.
      assert (Hpos : cur_pos c < cur_pos c3).
      { unfold c3. rewrite (after_pos _ _ _ H2), (after_pos _ _ _ H1),
          (after_pos _ _ _ Hc). simpl. lia. }
      assert (Hb3 : at_bol c3 = false).
      { apply andb_prop in Hname as [Hne _].
        now apply (at_bol_after name _ _ Hne Hlname H2). }
      replace fuel
        with (S (String.length tail
                 + S (fuel - String.length tail - 2))) by lia.
      rewrite (scan_match _ _ _ _ Hm Hpos). cbn [m_end map].
      destruct (scan_within tail c3 (text_of_lines lines)
                  (fuel - String.length tail - 2) Hltail Hb3 H3)
        as (-> & Hb' & Hc').
      rewrite (IH _ _ Hok' Hb' Hc') by (rewrite Hc'; lia).
      unfold group_str, group. cbn [m_groups].
      now rewrite lookup_insert_eq.
    + replace fuel
        with (String.length text + S (fuel - String.length text - 1))
        by lia.
      destruct (scan_to_next_line text c (text_of_lines lines)
                  (fuel - String.length text - 1) Hline) as (-> & Hb' & Hc').
      * apply header_needs_keyword. rewrite Hc.
        now apply starts_with_line.
      * exact Hc.
      * apply IH; auto. rewrite Hc'. lia.
Qed.

End HeaderLines.

Lemma finditer_lines kw cl lines :
  Text.nonempty kw = true ->
  Text.contains Text.newline kw = false ->
  (forall a, cls_match cl a = true -> Text.is_space a = false) ->
  Forall (header_ok kw cl) lines ->
  map (fun m => group_str m 1)
    (finditer (Bol ⋅ Str kw ⋅ spaces1 ⋅ Group 1 (Plus true (Chr cl)))%re
       (text_of_lines lines))
  = omap snd lines.
Proof.
  intros Hne Hkw Hcl Hok. unfold finditer.
  apply (scan_lines kw cl Hne Hkw Hcl); auto.
Qed.

Lemma newline_is_space a :
  Text.is_space a = false -> negb (Ascii.eqb a Text.newline) = true.
Proof.
  intros H. destruct (Ascii.eqb_spec a Text.newline) as [->|];
    [discriminate H|reflexivity].
Qed.

Lemma name_same_line cl s :
  (forall a, cls_match cl a = true -> Text.is_space a = false) ->
  all_in (cls_match cl) s = true -> same_line s = true.
Proof.
  intros Hcl. unfold same_line.
  induction s as [|a s IH]; [reflexivity|]. simpl.
  intros [Ha Hs]%andb_prop. rewrite (newline_is_space a (Hcl a Ha)).
  now apply IH.
Qed.

Lemma def_class_no_space a :
  cls_match def_class a = true -> Text.is_space a = false.
Proof.
  unfold def_class. cbn [cls_match existsb atom_match].
  destruct (Text.is_space a); [discriminate|reflexivity].
Qed.

Lemma class_class_no_space a :
  cls_match class_class a = true -> Text.is_space a = false.
Proof.
  unfold class_class. cbn [cls_match existsb atom_match].
  destruct (Text.is_space a); [discriminate|reflexivity].
Qed.

Lemma stops_at_newline cl tail :
  (forall a, cls_match cl a = true -> Text.is_space a = false) ->
  stops (cls_match cl) tail = true ->
  stops (cls_match cl) (tail +:+ Text.nl) = true.
Proof.
  intros Hcl H. destruct tail as [|a tail]; [|now rewrite str_app_cons].
  change (EmptyString +:+ Text.nl) with Text.nl. simpl.
  destruct (cls_match cl Text.newline) eqn:E; [|reflexivity].
  now apply Hcl in E.
Qed.

Lemma header_same_line kw cl name tail :
  same_line kw = true ->
  (forall a, cls_match cl a = true -> Text.is_space a = false) ->
  name_of cl name = true -> same_line tail = true ->
  same_line (kw +:+ name +:+ tail) = true.
Proof.
  intros Hkw Hcl [_ Hname]%andb_prop Htail.
  rewrite !same_line_app, Hkw, Htail, (name_same_line cl name Hcl Hname).
  reflexivity.
Qed.

Lemma source_def_view ls :
  source ls = text_of_lines (map def_view ls)
  /\ omap snd (map def_view ls) = def_names ls.
Proof.
  induction ls as [|l ls [IH1 IH2]]; [now split|].
  cbn [source map text_of_lines def_view fst]. rewrite IH1. split; auto.
  cbn [omap]. unfold def_names in *. cbn [flat_map]. rewrite <- IH2.
  now destruct l.
Qed.

Lemma source_class_view ls :
  source ls = text_of_lines (map class_view ls)
  /\ omap snd (map class_view ls) = class_names ls.
Proof.
  induction ls as [|l ls [IH1 IH2]]; [now split|].
  cbn [source map text_of_lines class_view fst]. rewrite IH1. split; auto.
  cbn [omap]. unfold class_names in *. cbn [flat_map]. rewrite <- IH2.
  now destruct l.
Qed.

Lemma def_view_ok l :
  is_py_line l = true -> header_ok "def" def_class (def_view l).
Proof.
  destruct l as [name tail|name tail|text]; cbn [is_py_line].
  - intros [[Hname Hstop]%andb_prop Htail]%andb_prop. split.
    + apply (header_same_line "def " def_class); auto using def_class_no_space.
    + exists tail. repeat split; auto.
      apply stops_at_newline; auto using def_class_no_space.
  - intros [[Hname Hstop]%andb_prop Htail]%andb_prop. split; [|reflexivity].
    apply (header_same_line "class " class_class);
      auto using class_class_no_space.
  - intros [[Hline Hdef]%andb_prop _]%andb_prop. split; [exact Hline|].
    now apply negb_true_iff in Hdef.
Qed.

Lemma class_view_ok l :
  is_py_line l = true -> header_ok "class" class_class (class_view l).
Proof.
  destruct l as [name tail|name tail|text]; cbn [is_py_line].
  - intros [[Hname Hstop]%andb_prop Htail]%andb_prop. split; [|reflexivity].
    apply (header_same_line "def " def_class); auto using def_class_no_space.
  - intros [[Hname Hstop]%andb_prop Htail]%andb_prop. split.
    + apply (header_same_line "class " class_class);
        auto using class_class_no_space.
    + exists tail. repeat split; auto.
      apply stops_at_newline; auto using class_class_no_space.
  - intros [[Hline _]%andb_prop Hclass]%andb_prop. split; [exact Hline|].
    now apply negb_true_iff in Hclass.
Qed.

(** X18: in a Python text made of whole lines, where a line is
    [def <name><tail>], [class <name><tail>] or a line that starts with
    neither keyword (an indented or an empty line, say), the extractor
    reports exactly the names of the [def] lines, in order, as functions
    and exactly the names of the [class] lines, in order, as classes: a
    nested or indented definition is not reported. *)
Theorem python_top_level_definitions (ls : list py_line) :
  forallb is_py_line ls = true ->
  _analyze_python (source ls) !! "functions" = Some (VList (def_names ls))
  /\ _analyze_python (source ls) !! "classes"
     = Some (VList (class_names ls)).
Proof.
  intros Hls. rewrite forallb_forall in Hls.
  rewrite python_functions_lookup, python_classes_lookup. split.
  - destruct (source_def_view ls) as [-> <-]. do 2 f_equal.
    apply (finditer_lines "def" def_class);
      [reflexivity|reflexivity|exact def_class_no_space|].
    apply List.Forall_forall. intros v [l [<- Hl]]%in_map_iff.
    apply def_view_ok, Hls, Hl.
  - destruct (source_class_view ls) as [-> <-]. do 2 f_equal.
    apply (finditer_lines "class" class_class);
      [reflexivity|reflexivity|exact class_class_no_space|].
    apply List.Forall_forall. intros v [l [<- Hl]]%in_map_iff.
    apply class_view_ok, Hls, Hl.
Qed.

Lemma python_top_level_definitions_witness :
  let ls := [ ClassLine "Shop" "(Base):";
              OtherLine "    def price(self):";
              OtherLine "        return 1";
              OtherLine EmptyString;
              DefLine "main" "():";
              OtherLine "    pass";
              DefLine "helper" " (x):" ] in
  forallb is_py_line ls = true
  /\ _analyze_python (source ls) !! "functions"
     = Some (VList ["main"; "helper"])
  /\ _analyze_python (source ls) !! "classes" = Some (VList ["Shop"]).
Proof.
  intros ls. split; [reflexivity|].
  apply (python_top_level_definitions ls). reflexivity.
Defined.
